(** * Distiller notebooks: quantize_lstm and save_intermediate_feature_maps

    A shallow embedding of the code cells of
      - examples/word_language_model/quantize_lstm.ipynb
      - jupyter/save_intermediate_feature_maps.ipynb
    (and of the parameter-histogram notebook stored with the first one).

    Python values are modelled as follows.
      - int            : Z (unbounded), // is floor division (Z.div);
      - float          : an abstract type with the operations the code
                         uses, no algebraic law is assumed of them;
      - torch tensors  : a shape, the elements in row-major order and
                         the strides (the layout in memory);
      - dict           : gmap (the order in which a dict is iterated is
                         a parameter of the framework);
      - exceptions     : the left summand of Err;
      - module state (hooks, notebook globals) and the sequence of
        library calls : the state of the monad M. *)

From stdpp Require Import base numbers list gmap strings.

Open Scope Z_scope.

(** ** Exceptions *)

Inductive PyErr : Type :=
  | ZeroDivisionError
  | RuntimeError
  | IndexError
  | TypeError
  | AttributeError
  | FileNotFoundError
  | LibraryError (code : Z).

Definition Err (A : Type) : Type := PyErr + A.

Definition raise {A : Type} (e : PyErr) : Err A := inl e.

#[global] Instance err_ret : MRet Err := λ A a, inr a.

#[global] Instance err_bind : MBind Err := λ A B k m,
  match m with
  | inl e => inl e
  | inr a => k a
  end.

(** ** Tensors

    A tensor value is its shape, its elements in row-major (logical)
    order and its strides: for each dimension, how far apart in memory
    two consecutive indices lie.  The values of a tensor do not depend
    on its strides; whether it can be viewed in another shape does.
    Token tensors hold integers (torch.LongTensor). *)

(** The strides of a freshly allocated tensor, computed from the last
    dimension to the first: the last stride is 1 and each other stride
    is the next one times the size of the next dimension (taken as 1
    when that size is 0). *)
Fixpoint strides_from (z : nat) (sizes : list nat) : list nat :=
  match sizes with
  | [] => []
  | size :: sizes => z :: strides_from (z * Nat.max size 1) sizes
  end.

Definition contiguous_strides (shape : list nat) : list nat :=
  reverse (strides_from 1 (reverse shape)).

Record Tensor : Type := mkStrided {
  shape : list nat;
  elems : list Z;
  strides : list nat
}.

(** A tensor in the row-major layout, as torch.tensor, the loaders of
    the corpus and contiguous() give it. *)
Definition mkTensor (shape : list nat) (elems : list Z) : Tensor :=
  mkStrided shape elems (contiguous_strides shape).

(** Product of the trailing dimensions: the number of elements of one
    row (one index along dimension 0). *)
Definition row_size (t : Tensor) : nat := foldr Nat.mul 1%nat (tail (shape t)).

Definition numel (t : Tensor) : nat := length (elems t).

Definition well_formed (t : Tensor) : Prop :=
  length (elems t) = foldr Nat.mul 1%nat (shape t).

(** [t.size(0)] *)
Definition size0 (t : Tensor) : Err Z :=
  match shape t with
  | [] => raise IndexError
  | n :: _ => mret (Z.of_nat n)
  end.

(** [len(t)] *)
Definition len (t : Tensor) : Err Z :=
  match shape t with
  | [] => raise TypeError
  | n :: _ => mret (Z.of_nat n)
  end.

(** Python's [a // b] on ints. *)
Definition floordiv (a b : Z) : Err Z :=
  if decide (b = 0) then raise ZeroDivisionError else mret (a / b).

(** [t.narrow(0, start, length)]: rows start .. start+length-1, an error
    when the range does not fit (the notebook passes start = 0).  The
    result shares the memory of [t]: same strides. *)
Definition narrow0 (t : Tensor) (start length : Z) : Err Tensor :=
  match shape t with
  | [] => raise RuntimeError
  | n :: rest =>
      if decide (0 ≤ start ∧ 0 ≤ length ∧ start + length ≤ Z.of_nat n) then
        mret {| shape := Z.to_nat length :: rest;
                elems := take (Z.to_nat length * row_size t)
                              (drop (Z.to_nat start * row_size t) (elems t));
                strides := strides t |}
      else raise RuntimeError
  end.

(** *** Layout: is_contiguous and view

    torch decides from the sizes and strides alone whether a tensor is
    contiguous and whether it can be viewed in a new shape; both walk
    the dimensions from the last to the first. *)

(** The number of elements of a shape. *)
Definition size_of (shape : list nat) : nat := foldr Nat.mul 1%nat shape.

(** The (size, stride) pairs of a tensor, from the last dimension to
    the first. *)
Definition dims_rev (t : Tensor) : list (nat * nat) :=
  reverse (zip (shape t) (strides t)).

(** The number of elements of a list of (size, stride) pairs. *)
Definition count_of (dims : list (nat * nat)) : nat :=
  foldr (λ p acc, p.1 * acc)%nat 1%nat dims.

(** Walking the dimensions from the last, z is the stride a
    dimension must have for the tensor to be contiguous; dimensions of
    size 1 are skipped. *)
Fixpoint contiguous_from (z : nat) (dims : list (nat * nat)) : bool :=
  match dims with
  | [] => true
  | (size, stride) :: dims =>
      if decide (size = 1%nat) then contiguous_from z dims
      else bool_decide (stride = z) && contiguous_from (z * size) dims
  end.

(** [t.is_contiguous()]; a tensor without elements is contiguous.  (A
    tensor of torch has one stride per dimension; a value that has
    not is not contiguous.) *)
Definition is_contiguous (t : Tensor) : bool :=
  bool_decide (length (strides t) = length (shape t))
  && (bool_decide (size_of (shape t) = 0%nat) || contiguous_from 1 (dims_rev t)).

(** The chunks of a tensor: the maximal runs of dimensions that lie
    in memory like one dimension, from the last dimension to the
    first, each with its innermost stride and its number of elements.
    [base] and [count] are those of the chunk being built; the next
    dimension starts a new chunk when its size is not 1 and its stride
    is not [count * base]. *)
Fixpoint chunks (base count : nat) (dims : list (nat * nat)) : list (nat * nat) :=
  match dims with
  | [] => [(base, count)]
  | (size, stride) :: dims =>
      if decide (size ≠ 1%nat ∧ stride ≠ (count * base)%nat)
      then (base, count) :: chunks stride size dims
      else chunks base (count * size) dims
  end.

(** The dimensions of the new shape (from the last) that one chunk
    takes: dimensions are taken while their product [reached] is below
    the chunk's [count], and dimensions of size 1 are taken along.
    Returns the product reached, the strides of the dimensions taken
    and the dimensions that remain. *)
Fixpoint take_dims (base count reached : nat) (new : list nat)
    : nat * list nat * list nat :=
  match new with
  | [] => (reached, [], [])
  | d :: new' =>
      if decide ((reached < count)%nat ∨ d = 1%nat) then
        let '(reached', taken, remaining) := take_dims base count (reached * d) new' in
        (reached', (reached * base)%nat :: taken, remaining)
      else (reached, [], new)
  end.

(** Every chunk must be filled exactly by the dimensions it takes, and
    no dimension may remain. *)
Fixpoint assign_strides (cs : list (nat * nat)) (new : list nat) : option (list nat) :=
  match cs with
  | [] => if new is [] then Some [] else None
  | (base, count) :: cs =>
      let '(reached, taken, remaining) := take_dims base count 1 new in
      if decide (reached = count)
      then (taken ++.) <$> assign_strides cs remaining
      else None
  end.

(** The strides of a view of a tensor in the shape [new], which has as
    many elements as the tensor, when there is one.  A tensor without
    elements can be viewed in any shape, and so can a tensor without
    dimensions. *)
Definition view_strides (t : Tensor) (new : list nat) : option (list nat) :=
  if decide (size_of (shape t) = 0%nat) then
    Some (if decide (shape t = new) then strides t else contiguous_strides new)
  else
    match dims_rev t with
    | [] => Some (replicate (length new) 1%nat)
    | (size, stride) :: dims =>
        reverse <$> assign_strides (chunks stride size dims) (reverse new)
    end.

(** [t.view(r, -1)]: r rows, the column count inferred from the number
    of elements; an error when the layout of [t] does not allow it. *)
Definition view_rows (t : Tensor) (r : Z) : Err Tensor :=
  if decide (0 < r ∧ (Z.of_nat (numel t)) `mod` r = 0) then
    let new := [Z.to_nat r; Z.to_nat (Z.of_nat (numel t) / r)] in
    match view_strides t new with
    | Some s => mret {| shape := new; elems := elems t; strides := s |}
    | None => raise RuntimeError
    end
  else raise RuntimeError.

(** [t.view(-1)]: all elements in one dimension; an error when the
    layout of [t] does not allow it. *)
Definition view_flat (t : Tensor) : Err Tensor :=
  match view_strides t [numel t] with
  | Some s => mret {| shape := [numel t]; elems := elems t; strides := s |}
  | None => raise RuntimeError
  end.

(** Element (i, j) of a two-dimensional tensor with [c] columns. *)
Definition get2 (t : Tensor) (i j : nat) : Z :=
  match shape t with
  | [_; c] => elems t !!! (i * c + j)%nat
  | _ => 0
  end.

(** [t.t()]: transposition of a matrix, which exchanges the two strides
    and moves no data; tensors of fewer dimensions are returned as they
    are, more dimensions are refused. *)
Definition transpose (t : Tensor) : Err Tensor :=
  match shape t with
  | [] | [_] => mret t
  | [r; c] =>
      mret {| shape := [c; r];
              elems := i ← seq 0 c; (λ j, elems t !!! (j * c + i)%nat) <$> seq 0 r;
              strides := reverse (strides t) |}
  | _ => raise RuntimeError
  end.

(** [t.contiguous()]: the same values in the row-major layout.  (torch
    returns [t] itself when it is contiguous already; its strides can
    then differ from the row-major ones only along dimensions of size
    1 or when [t] has no element, where they address nothing.) *)
Definition contiguous (t : Tensor) : Tensor :=
  {| shape := shape t; elems := elems t; strides := contiguous_strides (shape t) |}.

(** [t.to(device)] changes the place of the data, not the values nor
    the layout of a contiguous tensor. *)
Definition to_device (t : Tensor) : Tensor := t.

(** ** quantize_lstm.ipynb, cell 3 *)

Definition batchify (data : Tensor) (bsz : Z) : Err Tensor :=
  n ← size0 data;
  nbatch ← floordiv n bsz;
  data ← narrow0 data 0 (nbatch * bsz);
  data ← view_rows data bsz;
  data ← transpose data;
  mret (to_device (contiguous data)).

Definition batch_size : Z := 20.
Definition eval_batch_size : Z := 10.

(** ** quantize_lstm.ipynb, cell 6 *)

Definition sequence_len : Z := 35.

(** Python's adjustment of a slice bound to a sequence of length n. *)
Definition slice_bound (n k : Z) : Z :=
  if decide (k < 0) then Z.max (k + n) 0 else Z.min k n.

(** [t[a:b]] along dimension 0: a view of the rows, with the strides
    of [t]. *)
Definition getslice (t : Tensor) (a b : Z) : Err Tensor :=
  match shape t with
  | [] => raise IndexError
  | n :: rest =>
      let lo := slice_bound (Z.of_nat n) a in
      let hi := slice_bound (Z.of_nat n) b in
      let k := Z.to_nat (hi - lo) in
      mret {| shape := k :: rest;
              elems := take (k * row_size t)
                            (drop (Z.to_nat lo * row_size t) (elems t));
              strides := strides t |}
  end.

Definition get_batch (source : Tensor) (i : Z) : Err (Tensor * Tensor) :=
  n ← len source;
  let seq_len := Z.min sequence_len (n - 1 - i) in
  data ← getslice source i (i + seq_len);
  shifted ← getslice source (i + 1) (i + 1 + seq_len);
  target ← view_flat shifted;
  mret (data, target).

(** Row k of a tensor: the k-th block of [row_size] elements. *)
Definition row (t : Tensor) (k : nat) : list Z :=
  take (row_size t) (drop (k * row_size t) (elems t)).


(** [range(start, stop, step)] for a positive step. *)
Definition py_range (start stop step : Z) : list Z :=
  if decide (0 < step) then
    (λ k, start + Z.of_nat k * step) <$> seq 0 (Z.to_nat ((stop - start + step - 1) / step))
  else [].

(** ** The framework the notebooks call into

    Floating-point numbers, float tensors and the operations of torch,
    numpy and pickle are outside the repository: they are the fields of
    this class.  No law is assumed of them. *)

Class Framework : Type := {
  Float : Type;                          (* Python float *)
  FTensor : Type;                        (* float tensors: logits, activations *)
  NdArray : Type;                        (* numpy arrays *)
  Bytes : Type;                          (* file contents *)
  f_zero : Float;                        (* 0. *)
  f_add : Float → Float → Float;         (* x + y *)
  f_mul_int : Z → Float → Float;         (* n * x for an int n *)
  f_div_int : Float → Z → Float;         (* x / n for an int n, n not 0 *)
  np_exp : Float → Float;                (* np.exp *)
  view_tokens : FTensor → Z → Err FTensor;   (* output.view(-1, ntokens) *)
  criterion : FTensor → Tensor → Err Float;  (* nn.CrossEntropyLoss()(o, t).item() *)
  to_numpy : FTensor → NdArray;              (* o.data.cpu().numpy() *)
  nd_size : NdArray → Z;                     (* a.size, the number of elements *)
  pickle_dumps : gmap string NdArray → Bytes;
  pickle_loads : Bytes → Err (gmap string NdArray);
  (* d.items(): the items of a dict in the order the interpreter
     iterates them.  A gmap holds the mapping of a dict and not this
     order, which Python 3.5 (the kernel of the feature-map notebook)
     leaves to the hash table and later versions take from the
     insertions. *)
  dict_items : gmap string NdArray → list (string * NdArray)
}.

(** [x / n] for a float x and an int n. *)
Definition truediv `{Framework} (x : Float) (n : Z) : Err Float :=
  if decide (n = 0) then raise ZeroDivisionError else mret (f_div_int x n).

(** ** Library calls and what a cell prints *)

Inductive Call : Type :=
  | CallInitHidden
  | CallSize
  | CallLen
  | CallGetBatch (i : Z)
  | CallForward
  | CallView
  | CallCriterion
  | CallTrueDiv
  | CallGetattr
  | CallOpen
  | CallPickleLoad.

Inductive Event `{Framework} : Type :=
  | EvCall (c : Call) (raised : option PyErr)
  | EvPrintLoss (val_loss ppl : Float)
  | EvPrintInt (n : Z)
  | EvPrintName (name : string) (size : Z).

Definition raised_by {A : Type} (r : Err A) : option PyErr :=
  match r with
  | inl e => Some e
  | inr _ => None
  end.

(** ** The monad of a notebook cell

    A computation reads and writes a store [S] (the objects the cell
    mutates) and appends to the record of the calls made so far; it
    ends with a value or with an exception.  The store and the record
    survive an exception, as the objects of a Python process do. *)

Definition M `{Framework} (S A : Type) : Type :=
  S * list Event → (S * list Event) * Err A.

#[global] Instance M_ret `{Framework} {S : Type} : MRet (M S) := λ A a σ, (σ, inr a).

#[global] Instance M_bind `{Framework} {S : Type} : MBind (M S) := λ A B k m σ,
  match m σ with
  | (σ', inl e) => (σ', inl e)
  | (σ', inr a) => k a σ'
  end.

(** A call of a library operation whose outcome is [r]. *)
Definition call `{Framework} {S A : Type} (c : Call) (r : Err A) : M S A :=
  λ σ, ((σ.1, σ.2 ++ [EvCall c (raised_by r)]), r).

Definition print `{Framework} {S : Type} (ev : Event) : M S unit :=
  λ σ, ((σ.1, σ.2 ++ [ev]), inr tt).

Definition gets `{Framework} {S A : Type} (f : S → A) : M S A :=
  λ σ, (σ, inr (f σ.1)).

Definition modify `{Framework} {S : Type} (f : S → S) : M S unit :=
  λ σ, ((f σ.1, σ.2), inr tt).

(** A [for] loop that threads the loop variables [b]. *)
Fixpoint for_fold `{Framework} {S A B : Type}
    (body : B → A → M S B) (b : B) (l : list A) : M S B :=
  match l with
  | [] => mret b
  | x :: l => b' ← body b x; for_fold body b' l
  end.

(** A [for] loop run for its effects. *)
Definition for_each `{Framework} {S A : Type} (body : A → M S unit) (l : list A) : M S unit :=
  for_fold (λ _ x, body x) tt l.

(** ** quantize_lstm.ipynb, cell 8 *)

(** Hidden states: a tensor (with or without its autograd history) or
    a tuple of hidden states. *)
#[warnings="-register-all"]
Inductive Hidden `{Framework} : Type :=
  | HTensor (history : bool) (value : FTensor)
  | HTuple (items : list Hidden).

(** A recurrent language model: its mode, [init_hidden] and the forward
    pass, which depends on the mode (dropout). *)
Record RNN `{Framework} : Type := mkRNN {
  training : bool;
  init_hidden : Z → Err Hidden;
  forward : bool → Tensor → Hidden → Err (FTensor * Hidden)
}.

(** [model.eval()] *)
Definition set_eval `{Framework} (model : RNN) : RNN :=
  {| training := false; init_hidden := init_hidden model; forward := forward model |}.

Fixpoint repackage_hidden `{Framework} (h : Hidden) : Hidden :=
  match h with
  | HTensor _ v => HTensor false v
  | HTuple items => HTuple (repackage_hidden <$> items)
  end.

(** One iteration of the loop of [evaluate]; the loop variables are
    [total_loss] and [hidden]. *)
Definition evaluate_step `{Framework} {S : Type} (model : RNN) (ntokens : Z)
    (data_source : Tensor) (vars : Float * Hidden) (i : Z) : M S (Float * Hidden) :=
  let '(total_loss, hidden) := vars in
  '(data, targets) ← call (CallGetBatch i) (get_batch data_source i);
  '(output, hidden) ← call CallForward (forward model (training model) data hidden);
  output_flat ← call CallView (view_tokens output ntokens);
  rows ← call CallLen (len data);
  loss ← call CallCriterion (criterion output_flat targets);
  let total_loss := f_add total_loss (f_mul_int rows loss) in
  let hidden := repackage_hidden hidden in
  mret (total_loss, hidden).

(** [evaluate(model, data_source)]; [ntokens] is [len(corpus.dictionary)]
    of the notebook's global corpus. *)
Definition evaluate `{Framework} {S : Type} (ntokens : Z)
    (model : RNN) (data_source : Tensor) : M S Float :=
  let model := set_eval model in
  let total_loss := f_zero in
  hidden ← call CallInitHidden (init_hidden model eval_batch_size);
  n ← call CallSize (size0 data_source);
  '(total_loss, hidden) ←
    for_fold (evaluate_step model ntokens data_source) (total_loss, hidden)
             (py_range 0 n sequence_len);
  m ← call CallLen (len data_source);
  call CallTrueDiv (truediv total_loss m).

(** The cells that evaluate a model and print the loss and the
    perplexity (cells 10, 13-14, 16, 17, 18, 20, 21):
      val_loss = evaluate(model, val_data)
      print('val_loss:%8.2f | ppl:%8.2f' % (val_loss, np.exp(val_loss))) *)
Definition evaluate_and_print `{Framework} {S : Type} (ntokens : Z)
    (model : RNN) (val_data : Tensor) : M S unit :=
  val_loss ← evaluate ntokens model val_data;
  print (EvPrintLoss val_loss (np_exp val_loss)).

(** *** evaluate as a function

    What evaluate returns does not depend on the store nor on the
    record of calls: the definitions below make the same library calls
    in the same order, without the state. *)

(** The body of the loop of evaluate at each start index: the row
    count of the batch and the loss of the model on it. *)
Fixpoint batch_losses `{Framework} (model : RNN) (ntokens : Z) (data_source : Tensor)
    (hidden : Hidden) (starts : list Z) : Err (list (Z * Float)) :=
  match starts with
  | [] => mret []
  | i :: starts =>
      '(data, targets) ← get_batch data_source i;
      '(output, hidden) ← forward model false data hidden;
      output_flat ← view_tokens output ntokens;
      rows ← len data;
      loss ← criterion output_flat targets;
      rest ← batch_losses model ntokens data_source (repackage_hidden hidden) starts;
      mret ((rows, loss) :: rest)
  end.

(** The losses weighted by the row counts, summed in batch order. *)
Definition weighted_sum `{Framework} (l : list (Z * Float)) : Float :=
  foldl (λ acc p, f_add acc (f_mul_int p.1 p.2)) f_zero l.

(** The calls of evaluate, in order. *)
Definition average_loss `{Framework} (ntokens : Z) (model : RNN) (data_source : Tensor)
    : Err Float :=
  hidden ← init_hidden model eval_batch_size;
  n ← size0 data_source;
  l ← batch_losses model ntokens data_source hidden (py_range 0 n sequence_len);
  truediv (weighted_sum l) n.

(** ** save_intermediate_feature_maps.ipynb *)

(** A module of the network is an object; it is known by its
    identity.  [assign_layer_fq_names] (distiller.utils, not among the
    sources) gives the modules of the model their [distiller_name]
    attribute: the attribute store it leaves is a map from modules to
    names, and a module has the attribute when the map has its key. *)
Abbreviation NNModule := nat (only parsing).

(** The callables registered as forward hooks. *)
Inductive Hook : Type := save_conv_output_hook.

(** [torch.utils.hooks.RemovableHandle]: the module whose hook
    dictionary it points into and its key there. *)
Record Handle : Type := mkHandle {
  handle_module : nat;
  handle_id : nat
}.

(** The objects the cells of the notebook read and write. *)
Record Notebook `{Framework} : Type := mkNotebook {
  intermediary_results : gmap string NdArray;
  cb_handles : list Handle;
  (* module id ↦ its _forward_hooks, in registration order *)
  forward_hooks : gmap nat (list (nat * Hook));
  next_handle_id : nat;
  (* the files of the working directory *)
  files : gmap string Bytes;
  intermediary_results_from_file : gmap string NdArray
}.

Definition set_intermediary_results `{Framework}
    (f : gmap string NdArray → gmap string NdArray) (nb : Notebook) : Notebook :=
  {| intermediary_results := f (intermediary_results nb);
     cb_handles := cb_handles nb;
     forward_hooks := forward_hooks nb;
     next_handle_id := next_handle_id nb;
     files := files nb;
     intermediary_results_from_file := intermediary_results_from_file nb |}.

Definition set_cb_handles `{Framework}
    (f : list Handle → list Handle) (nb : Notebook) : Notebook :=
  {| intermediary_results := intermediary_results nb;
     cb_handles := f (cb_handles nb);
     forward_hooks := forward_hooks nb;
     next_handle_id := next_handle_id nb;
     files := files nb;
     intermediary_results_from_file := intermediary_results_from_file nb |}.

Definition set_forward_hooks `{Framework}
    (f : gmap nat (list (nat * Hook)) → gmap nat (list (nat * Hook)))
    (nb : Notebook) : Notebook :=
  {| intermediary_results := intermediary_results nb;
     cb_handles := cb_handles nb;
     forward_hooks := f (forward_hooks nb);
     next_handle_id := next_handle_id nb;
     files := files nb;
     intermediary_results_from_file := intermediary_results_from_file nb |}.

Definition set_next_handle_id `{Framework} (n : nat) (nb : Notebook) : Notebook :=
  {| intermediary_results := intermediary_results nb;
     cb_handles := cb_handles nb;
     forward_hooks := forward_hooks nb;
     next_handle_id := n;
     files := files nb;
     intermediary_results_from_file := intermediary_results_from_file nb |}.

Definition set_files `{Framework}
    (f : gmap string Bytes → gmap string Bytes) (nb : Notebook) : Notebook :=
  {| intermediary_results := intermediary_results nb;
     cb_handles := cb_handles nb;
     forward_hooks := forward_hooks nb;
     next_handle_id := next_handle_id nb;
     files := f (files nb);
     intermediary_results_from_file := intermediary_results_from_file nb |}.

Definition set_from_file `{Framework}
    (d : gmap string NdArray) (nb : Notebook) : Notebook :=
  {| intermediary_results := intermediary_results nb;
     cb_handles := cb_handles nb;
     forward_hooks := forward_hooks nb;
     next_handle_id := next_handle_id nb;
     files := files nb;
     intermediary_results_from_file := d |}.

(** The hooks of a module, in registration order. *)
Definition hooks_of `{Framework} (nb : Notebook) (m : NNModule) : list (nat * Hook) :=
  default [] (forward_hooks nb !! m).

(** *** torch.nn.Module, as far as the notebook uses it *)

(** [m.register_forward_hook(hook)]: stores the hook under a fresh key
    and returns the handle. *)
Definition module_register_forward_hook `{Framework}
    (m : NNModule) (hook : Hook) : M Notebook Handle :=
  k ← gets next_handle_id;
  modify (set_next_handle_id (S k));;
  modify (λ nb, set_forward_hooks <[m := hooks_of nb m ++ [(k, hook)]]> nb);;
  mret (mkHandle m k).

(** [h.remove()]: deletes the handle's key from the hook dictionary,
    when it is still there. *)
Definition handle_remove `{Framework} (h : Handle) : M Notebook unit :=
  modify (set_forward_hooks
            (alter (filter (λ kh, kh.1 ≠ handle_id h)) (handle_module h))).

(** A forward pass of the network on one input: the modules whose
    forward completed, in order of completion, each with its output,
    and the outcome of the whole call.  The notebook's hook returns
    None, so the outputs do not depend on the hooks. *)
Record ForwardRun `{Framework} : Type := mkRun {
  run_calls : list (NNModule * FTensor);
  run_result : Err FTensor
}.

(** *** Cell 4 *)

Definition save_conv_output `{Framework} (names : gmap nat string)
    (m : NNModule) (o : FTensor) : M Notebook unit :=
  name ← call CallGetattr
            (match names !! m with
             | Some name => mret name
             | None => raise AttributeError
             end);
  modify (set_intermediary_results <[name := to_numpy o]>).

Definition run_hook `{Framework} (names : gmap nat string) (hook : Hook)
    (m : NNModule) (o : FTensor) : M Notebook unit :=
  match hook with
  | save_conv_output_hook => save_conv_output names m o
  end.

Definition register_forward_hook `{Framework} (names : gmap nat string)
    (m : NNModule) : M Notebook unit :=
  if names !! m is Some _ then
    h ← module_register_forward_hook m save_conv_output_hook;
    modify (set_cb_handles (λ hs, hs ++ [h]))
  else mret tt.

(** [Module.__call__] of one module whose forward returned [o]: its
    hooks run in registration order. *)
Definition fire_hooks `{Framework} (names : gmap nat string)
    (mo : NNModule * FTensor) : M Notebook unit :=
  hs ← gets (λ nb, hooks_of nb mo.1);
  for_each (λ kh : nat * Hook, run_hook names kh.2 mo.1 mo.2) hs.

(** [model(sample)] *)
Definition model_call `{Framework} (names : gmap nat string) (run : ForwardRun)
    : M Notebook FTensor :=
  for_each (fire_hooks names) (run_calls run);;
  call CallForward (run_result run).

(** [model.apply(fn)]; [modules] lists the modules in the order apply
    visits them. *)
Definition apply `{Framework} (modules : list NNModule)
    (fn : NNModule → M Notebook unit) : M Notebook unit :=
  for_each fn modules.

(** [names] is the attribute store that assign_layer_fq_names leaves,
    [modules] the modules of the model, [run] the forward pass of the
    model on the sample. *)
Definition capture_cell `{Framework} (names : gmap nat string)
    (modules : list NNModule) (run : ForwardRun) : M Notebook unit :=
  modify (set_intermediary_results (λ _, ∅));;
  modify (set_cb_handles (λ _, []));;
  apply modules (register_forward_hook names);;
  predictions ← model_call names run;
  hs ← gets cb_handles;
  for_each handle_remove hs;;
  n ← gets (λ nb, Z.of_nat (size (intermediary_results nb)));
  print (EvPrintInt n).

(** *** Cells 5 and 6 *)

Definition pickle_path : string := "resnet50_sparse_fms.pickle".

(** with open(pickle_path, 'wb') as f:
      pickle.dump(intermediary_results, f) *)
Definition dump_cell `{Framework} : M Notebook unit :=
  d ← gets intermediary_results;
  modify (set_files <[pickle_path := pickle_dumps d]>).

(** intermediary_results_from_file = {}
    with open(pickle_path, 'rb') as f:
      intermediary_results_from_file = pickle.load(f)
    for name, tensor in intermediary_results_from_file.items():
      print(name, tensor.size) *)
Definition load_cell `{Framework} : M Notebook unit :=
  modify (set_from_file ∅);;
  fs ← gets files;
  content ← call CallOpen
               (match fs !! pickle_path with
                | Some b => mret b
                | None => raise FileNotFoundError
                end);
  d ← call CallPickleLoad (pickle_loads content);
  modify (set_from_file d);;
  for_each (λ item : string * NdArray, print (EvPrintName item.1 (nd_size item.2)))
           (dict_items d).

(** The state of a notebook whose model has just been created: no
    hook is registered on any module. *)
Definition fresh_notebook `{Framework} (fs : gmap string Bytes) : Notebook :=
  {| intermediary_results := ∅;
     cb_handles := [];
     forward_hooks := ∅;
     next_handle_id := 0;
     files := fs;
     intermediary_results_from_file := ∅ |}.

(** *** What the capture is meant to collect *)

(** The modules on which the cell registers a hook: the modules of the
    model that have a [distiller_name]. *)
Definition hooked (names : gmap nat string) (modules : list NNModule) (m : NNModule) : Prop :=
  m ∈ modules ∧ is_Some (names !! m).

#[global] Instance hooked_dec names modules m : Decision (hooked names modules m).
Proof. unfold hooked. apply _. Defined.

(** The dictionary that maps the name of each hooked module that ran
    to its output, as a numpy array (the latest output, when the
    module ran more than once). *)
Definition captured `{Framework} (names : gmap nat string) (modules : list NNModule)
    (calls : list (NNModule * FTensor)) : gmap string NdArray :=
  foldl (λ d mo,
           match names !! mo.1 with
           | Some name => if decide (mo.1 ∈ modules) then <[name := to_numpy mo.2]> d else d
           | None => d
           end) ∅ calls.

(** ** The notebooks as sequences of cells

    Each code cell is the list of its top-level statements, in program
    order; a statement is named after what it calls, and a run of
    imports is one statement. *)

Inductive ModelKind : Type :=
  | FloatModel       (* the converted model, as loaded *)
  | QuantizedModel   (* quantizer.model *)
  | HalfModel.       (* deepcopy(man_model).half() *)

Inductive Stmt : Type :=
  | StImport
  | StDefine (name : string)
  | StAssign (name : string)
  | StShow                       (* a bare expression, displayed *)
  | StLoadCorpus                 (* Corpus('./data/wikitext-2/') *)
  | StLoadImage                  (* Image.open(...) *)
  | StPreprocess                 (* preprocess(img), unsqueeze_, Variable *)
  | StBatchify (name : string)   (* name = batchify(...) *)
  | StLoadModel                  (* torch.load / create_model / load_checkpoint *)
  | StCopyModel                  (* .to(device), make_non_parallel_copy *)
  | StConvert                    (* manual_model(rnn_model) *)
  | StSaveModel                  (* torch.save *)
  | StInitHidden
  | StGetBatch
  | StSetEval                    (* model.eval() *)
  | StForward                    (* model(input) *)
  | StPrintMaxError
  | StTopOne                     (* torch.max(predictions, 1) *)
  | StPrintTopOne                (* print(top1_vals.item()) *)
  | StAssignNames                (* distiller.utils.assign_layer_fq_names *)
  | StMakeCollector
  | StCollectStats               (* if no stats file: evaluate under the collector, save *)
  | StEvaluate (k : ModelKind)   (* val_loss = evaluate(...) *)
  | StPrintLoss (k : ModelKind)  (* print(... % (val_loss, np.exp(val_loss))) *)
  | StMakeQuantizer              (* PostTrainLinearQuantizer(deepcopy(man_model), ...) *)
  | StPrepareModel               (* quantizer.prepare_model() *)
  | StHalfCopy                   (* deepcopy(man_model).half() *)
  | StRegisterHooks              (* model.apply(register_forward_hook) *)
  | StRemoveHooks                (* for h in cb_handles: h.remove() *)
  | StPrintCount                 (* print(len(intermediary_results)) *)
  | StPickleDump
  | StPickleLoad
  | StPrintNames
  | StPlotStyle                  (* plt.style.use('seaborn') *)
  | StPlotHistograms.            (* the loop over model.named_parameters() *)

#[global] Instance ModelKind_eq_dec : EqDecision ModelKind.
Proof. solve_decision. Defined.

#[global] Instance Stmt_eq_dec : EqDecision Stmt.
Proof. solve_decision. Defined.

Definition Cell : Type := list Stmt.

Definition quantize_lstm : list Cell := [
  (*  1 *) [StImport];
  (*  2 *) [StLoadCorpus];
  (*  3 *) [StDefine "batchify"; StAssign "device"; StAssign "batch_size";
            StAssign "eval_batch_size"; StBatchify "train_data";
            StBatchify "val_data"; StBatchify "test_data"];
  (*  4 *) [StLoadModel; StCopyModel; StShow];
  (*  5 *) [StDefine "manual_model"; StConvert; StSaveModel; StShow];
  (*  6 *) [StAssign "sequence_len"; StDefine "get_batch"; StInitHidden; StGetBatch];
  (*  7 *) [StSetEval; StSetEval; StForward; StForward; StPrintMaxError];
  (*  8 *) [StAssign "criterion"; StDefine "repackage_hidden"; StDefine "evaluate"];
  (*  9 *) [StImport; StLoadModel; StAssignNames; StMakeCollector; StCollectStats];
  (* 10 *) [StImport; StLoadModel; StEvaluate FloatModel; StPrintLoss FloatModel];
  (* 11 *) [StMakeQuantizer; StPrepareModel];
  (* 12 *) [StShow];
  (* 13 *) [StEvaluate QuantizedModel];
  (* 14 *) [StPrintLoss QuantizedModel];
  (* 15 *) [StMakeQuantizer; StPrepareModel; StShow];
  (* 16 *) [StEvaluate QuantizedModel; StPrintLoss QuantizedModel];
  (* 17 *) [StHalfCopy; StEvaluate HalfModel; StPrintLoss HalfModel];
  (* 18 *) [StAssign "overrides_yaml"; StAssign "overrides"; StMakeQuantizer;
            StPrepareModel; StEvaluate QuantizedModel; StPrintLoss QuantizedModel];
  (* 19 *) [StShow];
  (* 20 *) [StAssign "overrides_yaml"; StAssign "overrides"; StMakeQuantizer;
            StPrepareModel; StEvaluate QuantizedModel; StPrintLoss QuantizedModel];
  (* 21 *) [StMakeQuantizer; StPrepareModel; StEvaluate QuantizedModel;
            StPrintLoss QuantizedModel];
  (* 22 *) [StShow]
].

Definition save_intermediate_feature_maps : list Cell := [
  (* 1 *) [StImport; StAssign "module_path"; StImport];
  (* 2 *) [StLoadModel; StLoadModel; StLoadModel; StCopyModel];
  (* 3 *) [StImport; StAssign "normalize"; StAssign "preprocess"; StLoadImage;
           StPreprocess; StPreprocess; StPreprocess; StSetEval; StForward; StTopOne;
           StPrintTopOne];
  (* 4 *) [StAssign "intermediary_results"; StAssign "cb_handles";
           StDefine "save_conv_output"; StDefine "register_forward_hook";
           StAssignNames; StRegisterHooks; StForward; StRemoveHooks; StPrintCount];
  (* 5 *) [StImport; StPickleDump];
  (* 6 *) [StAssign "intermediary_results_from_file"; StPickleLoad; StPrintNames];
  (* 7 *) []
].

Definition parameter_histograms : list Cell := [
  (* 1 *) [StImport; StPlotStyle];
  (* 2 *) [StLoadModel];
  (* 3 *) [StDefine "flatten"; StAssign "REMOVE_ZEROS"; StAssign "nbins"; StPlotHistograms];
  (* 4 *) []
].

Definition notebooks : list (list Cell) :=
  [quantize_lstm; save_intermediate_feature_maps; parameter_histograms].

(** *** Pipeline steps and how often a cell invokes them *)

Inductive Step : Type := StepForward | StepBatchify | StepEvaluate.

(** The invocations of a step a statement makes itself (the forward
    passes inside [evaluate] are counted by the record of its calls). *)
Definition invokes (step : Step) (s : Stmt) : nat :=
  match step, s with
  | StepForward, StForward => 1
  | StepBatchify, StBatchify _ => 1
  | StepEvaluate, StEvaluate _ => 1
  | StepEvaluate, StCollectStats => 1
  | _, _ => 0
  end.

Definition invocations (step : Step) (cell : Cell) : nat :=
  sum_list_with (invokes step) cell.

(** The forward passes among the calls a computation made. *)
Definition is_forward_call `{Framework} (ev : Event) : bool :=
  match ev with
  | EvCall CallForward _ => true
  | _ => false
  end.

Definition forward_calls `{Framework} (log : list Event) : nat :=
  sum_list_with (λ ev, if is_forward_call ev then 1%nat else 0%nat) log.

(** *** The stages of the pipeline *)

Inductive Stage : Type :=
  | LoadData        (* load corpus / image *)
  | LoadPretrained  (* load pretrained model *)
  | ConvertLayer    (* convert layer implementation *)
  | RunForward      (* run forward passes *)
  | Collect         (* collect statistics / plots *)
  | Quantize
  | Reevaluate
  | Compare.

#[global] Instance Stage_eq_dec : EqDecision Stage.
Proof. solve_decision. Defined.

(** The place of a stage in the chain. *)
Definition rank (s : Stage) : nat :=
  match s with
  | LoadData => 0
  | LoadPretrained => 1
  | ConvertLayer => 2
  | RunForward => 3
  | Collect => 4
  | Quantize => 5
  | Reevaluate => 6
  | Compare => 7
  end.

(** The stage a statement belongs to; statements that only define,
    import or display belong to none.  Evaluating the converted model
    before any quantization runs forward passes over the validation
    data; evaluating a quantized or half-precision model is the
    re-evaluation, and printing its loss and perplexity the comparison. *)
Definition stage_of (s : Stmt) : option Stage :=
  match s with
  | StLoadCorpus | StLoadImage => Some LoadData
  | StLoadModel => Some LoadPretrained
  | StConvert => Some ConvertLayer
  | StForward | StEvaluate FloatModel => Some RunForward
  | StCollectStats | StPrintCount | StPickleDump | StPlotHistograms => Some Collect
  | StMakeQuantizer | StPrepareModel | StHalfCopy => Some Quantize
  | StEvaluate QuantizedModel | StEvaluate HalfModel => Some Reevaluate
  | StPrintLoss QuantizedModel | StPrintLoss HalfModel => Some Compare
  | _ => None
  end.

(** The stages of a notebook, in the order its statements run. *)
Definition stages (nb : list Cell) : list Stage := omap stage_of (concat nb).

(** No stage is performed before a stage that precedes it in the
    chain: the ranks never decrease. *)
Fixpoint in_chain_order (l : list Stage) : bool :=
  match l with
  | [] => true
  | s :: l' =>
      match l' with
      | [] => true
      | s' :: _ => bool_decide (rank s ≤ rank s')%nat && in_chain_order l'
      end
  end.

(** The stages in the order of their first occurrence. *)
Fixpoint first_occurrences (seen : list Stage) (l : list Stage) : list Stage :=
  match l with
  | [] => []
  | s :: l => if decide (s ∈ seen) then first_occurrences seen l
              else s :: first_occurrences (s :: seen) l
  end.

(** The places where the order of the chain is broken: the adjacent
    stages (s, s') with s' before s in the chain. *)
Fixpoint order_breaks (l : list Stage) : list (Stage * Stage) :=
  match l with
  | [] => []
  | s :: l' =>
      match l' with
      | [] => []
      | s' :: _ =>
          if decide (rank s' < rank s)%nat then (s, s') :: order_breaks l'
          else order_breaks l'
      end
  end.

(** ** A small instance, to run the definitions

    Floats are integers, float tensors and arrays are lists of
    integers, a pickled dictionary is the dictionary itself and a
    dictionary is iterated in the order of its keys. *)

Definition toy : Framework := {|
  Float := Z;
  FTensor := list Z;
  NdArray := list Z;
  Bytes := gmap string (list Z);
  f_zero := 0;
  f_add := Z.add;
  f_mul_int := Z.mul;
  f_div_int := Z.div;
  np_exp := λ x, 2 ^ x;
  view_tokens := λ o ntokens,
    if decide (0 < ntokens) then inr o else inl RuntimeError;
  criterion := λ o t, inr (Z.of_nat (length o) + Z.of_nat (numel t));
  to_numpy := λ o, o;
  nd_size := λ a, Z.of_nat (length a);
  pickle_dumps := λ d, d;
  pickle_loads := λ b, inr b;
  dict_items := map_to_list
|}.

(** A model whose output is its input and whose hidden state is empty. *)
Definition toy_model : @RNN toy :=
  @mkRNN toy true (λ _, inr (@HTuple toy [])) (λ _ d h, inr (elems d, h)).

(** A model whose forward pass raises. *)
Definition failing_model : @RNN toy :=
  @mkRNN toy true (λ _, inr (@HTuple toy [])) (λ _ d h, inl (LibraryError 7)).

(** 72 rows of one token each. *)
Definition toy_data : Tensor := mkTensor [72%nat; 1%nat] (Z.of_nat <$> seq 0 72).

(** Three modules, two of them named; module 1 runs twice. *)
Definition toy_names : gmap nat string := {[ 0%nat := "conv1"; 1%nat := "relu" ]}.
Definition toy_modules : list nat := [0%nat; 1%nat; 2%nat].
Definition toy_run : @ForwardRun toy :=
  @mkRun toy [(0%nat, [1]); (1%nat, [2]); (2%nat, [5]); (1%nat, [3])] (inr [4]).

(** A forward pass that raises after two modules have completed. *)
Definition failing_run : @ForwardRun toy :=
  @mkRun toy [(0%nat, [1]); (1%nat, [2])] (inl (LibraryError 9)).

(** ** Exceptions and the record of calls *)

(** The exception an event raised, if any. *)
Definition raised `{Framework} (ev : Event) : option PyErr :=
  match ev with
  | EvCall _ r => r
  | _ => None
  end.

(** The calls [l] a computation made and its outcome [r] agree: when
    it returned a value no call raised; when it ended with the
    exception e, the last call made is the one that raised e, and no
    call before it raised. *)
Definition passes_through `{Framework} {A : Type} (l : list Event) (r : Err A) : Prop :=
  match r with
  | inr _ => Forall (λ ev, raised ev = None) l
  | inl e => ∃ l0 c, l = l0 ++ [EvCall c (Some e)] ∧ Forall (λ ev, raised ev = None) l0
  end.

(** A computation that installs no handler: from every state, what it
    adds to the record of calls agrees with its outcome. *)
Definition propagates `{Framework} {S A : Type} (m : M S A) : Prop :=
  ∀ σ : S * list Event, ∃ l : list Event,
    (m σ).1.2 = σ.2 ++ l ∧ passes_through l (m σ).2.

(** A computation that, started in the store [s], returns [a] and
    leaves the store [s'], whatever the calls recorded before it. *)
Definition runs_to `{Framework} {S A : Type} (m : M S A) (s s' : S) (a : A) : Prop :=
  ∀ log : list Event, ∃ log' : list Event, m (s, log) = ((s', log'), inr a).

(** ** The effect of the statements of cell 4 on the store *)

(** register_forward_hook *)
Definition registered `{Framework} (names : gmap nat string) (nb : Notebook)
    (m : NNModule) : Notebook :=
  match names !! m with
  | Some _ =>
      set_cb_handles (λ hs, hs ++ [mkHandle m (next_handle_id nb)])
        (set_forward_hooks
           <[m := hooks_of nb m ++ [(next_handle_id nb, save_conv_output_hook)]]>
           (set_next_handle_id (S (next_handle_id nb)) nb))
  | None => nb
  end.

(** The hooks of a module that has completed its forward. *)
Definition fired `{Framework} (names : gmap nat string) (nb : Notebook)
    (mo : NNModule * FTensor) : Notebook :=
  match hooks_of nb mo.1, names !! mo.1 with
  | _ :: _, Some name => set_intermediary_results <[name := to_numpy mo.2]> nb
  | _, _ => nb
  end.

(** h.remove() *)
Definition removed `{Framework} (nb : Notebook) (h : Handle) : Notebook :=
  set_forward_hooks (alter (filter (λ kh, kh.1 ≠ handle_id h)) (handle_module h)) nb.

(** ** The batches of evaluate *)

(** The number of rows get_batch takes from a source of n rows at
    index i. *)
Definition batch_rows (n i : Z) : Z := Z.min sequence_len (n - 1 - i).

Definition sum_Z (l : list Z) : Z := foldr Z.add 0 l.

(** ** The batches the loop of evaluate takes *)

(** The pairs (data, targets) that get_batch returns at the indices
    range(0, data_source.size(0), sequence_len), in order. *)
Definition evaluate_batches (data_source : Tensor) : Err (list (Tensor * Tensor)) :=
  n ← size0 data_source;
  mapM (get_batch data_source) (py_range 0 n sequence_len).

(** ** The average loss of the specification

    Perplexity is the exponential of the average cross-entropy loss.
    The definitions below state that average in the words of the
    specification, from the rows of the data source and not through
    get_batch, len or the division of evaluate, to be compared with
    what evaluate computes. *)

(** The number of rows of a batch of data. *)
Definition row_count (data : Tensor) : Z :=
  match shape data with
  | n :: _ => Z.of_nat n
  | [] => 0
  end.

(** [b] is batch number j of a source of [rows] rows of shape [rest]:
    its data are the rows 35 j, 35 j + 1, ... of the source, 35 of them
    or as many as come before the last row, and its targets are the
    rows one further on, flattened.  The layout of the two tensors is
    left open. *)
Definition shifted_batch (source : Tensor) (rows : nat) (rest : list nat)
    (j : nat) (b : Tensor * Tensor) : Prop :=
  let start := (35 * j)%nat in
  let k := Nat.min 35 (rows - 1 - start) in
  let rs := size_of rest in
  shape b.1 = k :: rest
  ∧ elems b.1 = take (k * rs) (drop (start * rs) (elems source))
  ∧ shape b.2 = [(k * rs)%nat]
  ∧ elems b.2 = take (k * rs) (drop ((start + 1) * rs) (elems source)).

(** For each batch in order, its row count and the mean cross-entropy
    of the model's output against the targets of the batch; the hidden
    state goes from one batch to the next, detached. *)
Fixpoint losses_of `{Framework} (model : RNN) (ntokens : Z) (hidden : Hidden)
    (batches : list (Tensor * Tensor)) : Err (list (Z * Float)) :=
  match batches with
  | [] => mret []
  | (data, targets) :: batches =>
      '(output, hidden) ← forward model false data hidden;
      output_flat ← view_tokens output ntokens;
      loss ← criterion output_flat targets;
      rest ← losses_of model ntokens (repackage_hidden hidden) batches;
      mret ((row_count data, loss) :: rest)
  end.

(** The losses weighted by the row counts, summed over the batches and
    divided by the number of rows of the data source. *)
Definition mean_loss `{Framework} (model : RNN) (ntokens : Z)
    (batches : list (Tensor * Tensor)) (rows : Z) : Err Float :=
  hidden ← init_hidden model eval_batch_size;
  l ← losses_of model ntokens hidden batches;
  if decide (rows = 0) then raise ZeroDivisionError
  else mret (f_div_int (weighted_sum l) rows).

(** ** Hidden states and their history *)

(** Some tensor of the hidden state still carries its history. *)
Fixpoint has_history `{Framework} (h : Hidden) : bool :=
  match h with
  | HTensor history _ => history
  | HTuple items => existsb has_history items
  end.

(** The values of the tensors of a hidden state, from left to right. *)
Fixpoint hidden_values `{Framework} (h : Hidden) : list FTensor :=
  match h with
  | HTensor _ value => [value]
  | HTuple items => mjoin (hidden_values <$> items)
  end.

(** ** The capture cell on a model that already carries hooks *)

#[global] Instance Hook_eq_dec : EqDecision Hook.
Proof. solve_decision. Defined.

#[global] Instance Handle_eq_dec : EqDecision Handle.
Proof. solve_decision. Defined.

(** The dictionary that the hooks of a forward pass leave when the
    modules that carry a hook are those of [has_hook]: the name of each
    such module that ran, with its latest output. *)
Definition captured_by `{Framework} (names : gmap nat string)
    (has_hook : NNModule → Prop) `{!∀ m, Decision (has_hook m)}
    (calls : list (NNModule * FTensor)) : gmap string NdArray :=
  foldl (λ d mo,
           match names !! mo.1 with
           | Some name => if decide (has_hook mo.1) then <[name := to_numpy mo.2]> d else d
           | None => d
           end) ∅ calls.

(** A notebook of the small instance whose module 1 carries a hook of
    an earlier run. *)
Definition stale_notebook : @Notebook toy :=
  {| intermediary_results := {[ "relu" := [8] ]};
     cb_handles := [mkHandle 1%nat 0%nat];
     forward_hooks := {[ 1%nat := [(0%nat, save_conv_output_hook)] ]};
     next_handle_id := 1%nat;
     files := ∅;
     intermediary_results_from_file := ∅ |}.

(** A second forward pass, in which only module 1 runs. *)
Definition second_run : @ForwardRun toy := @mkRun toy [(1%nat, [7])] (inr [6]).

(** The model whose forward pass drops the history of the hidden state
    it is given before it looks at it. *)
Definition detach_inputs `{Framework} (model : RNN) : RNN :=
  {| training := training model;
     init_hidden := init_hidden model;
     forward := λ mode data hidden, forward model mode data (repackage_hidden hidden) |}.
(** * Properties *)

(** ** The layout of tensors *)

Lemma reverse_zip {A B : Type} (l : list A) (k : list B) :
  length l = length k → reverse (zip l k) = zip (reverse l) (reverse k).
Proof.
  revert k. induction l as [|a l IH]; intros [|b k] Hlen; try done.
  simpl in Hlen. simpl. rewrite !reverse_cons, IH by lia.
  rewrite zip_with_app by (rewrite !length_reverse; lia). done.
Qed.

Lemma length_strides_from (z : nat) (sizes : list nat) :
  length (strides_from z sizes) = length sizes.
Proof. revert z. induction sizes as [|d sizes IH]; intros z; simpl; [done|by rewrite IH]. Qed.

Lemma length_contiguous_strides (sh : list nat) :
  length (contiguous_strides sh) = length sh.
Proof.
  unfold contiguous_strides. by rewrite length_reverse, length_strides_from, length_reverse.
Qed.

(** The strides of the row-major layout do not depend on the number
    of rows. *)
Lemma contiguous_strides_rows (n k : nat) (rest : list nat) :
  contiguous_strides (n :: rest) = contiguous_strides (k :: rest).
Proof.
  unfold contiguous_strides. rewrite !reverse_cons.
  generalize (reverse rest). generalize 1%nat. intros z l. f_equal. revert z.
  induction l as [|d l IH]; intros z; simpl; [done|by rewrite IH].
Qed.

Lemma size_of_cons (d : nat) (sh : list nat) : size_of (d :: sh) = (d * size_of sh)%nat.
Proof. done. Qed.

Lemma size_of_nonzero (sh : list nat) :
  size_of sh ≠ 0%nat ↔ Forall (λ d, d ≠ 0%nat) sh.
Proof.
  induction sh as [|d sh IH]; [by split|].
  rewrite size_of_cons, Forall_cons, <- IH. lia.
Qed.

Lemma count_of_app (l1 l2 : list (nat * nat)) :
  count_of (l1 ++ l2) = (count_of l1 * count_of l2)%nat.
Proof. induction l1 as [|[d s] l1 IH]; simpl; [lia|]. rewrite IH. lia. Qed.

Lemma count_of_zip (sh st : list nat) :
  length st = length sh → count_of (zip sh st) = size_of sh.
Proof.
  revert st. induction sh as [|d sh IH]; intros [|s st] Hlen; try done.
  simpl in *. rewrite IH by lia. done.
Qed.

Lemma count_of_dims_rev (t : Tensor) :
  length (strides t) = length (shape t) → count_of (dims_rev t) = size_of (shape t).
Proof.
  intros Hlen. unfold dims_rev. rewrite <- (count_of_zip _ _ Hlen).
  generalize (zip (shape t) (strides t)). intros l.
  induction l as [|[d s] l IH]; [done|].
  rewrite reverse_cons, count_of_app, IH. simpl. lia.
Qed.

(** *** Contiguous tensors *)

Lemma contiguous_from_app (z : nat) (l1 l2 : list (nat * nat)) :
  contiguous_from z (l1 ++ l2)
  = contiguous_from z l1 && contiguous_from (z * count_of l1) l2.
Proof.
  revert z. induction l1 as [|[d s] l1 IH]; intros z; simpl.
  - by rewrite Nat.mul_1_r.
  - case_decide as Hd.
    + subst d. rewrite IH. do 2 f_equal. lia.
    + rewrite IH, <- andb_assoc. do 3 f_equal. lia.
Qed.

Lemma contiguous_from_default (z : nat) (sizes : list nat) :
  Forall (λ d, d ≠ 0%nat) sizes →
  contiguous_from z (zip sizes (strides_from z sizes)) = true.
Proof.
  intros Hall. revert z. induction Hall as [|d sizes Hd _ IH]; intros z; [done|].
  simpl. replace (d `max` 1)%nat with d by lia.
  case_decide as Hone; [subst d; rewrite Nat.mul_1_r; apply IH|].
  by rewrite bool_decide_eq_true_2, IH.
Qed.

(** A tensor in the row-major layout is contiguous. *)
Lemma is_contiguous_default (sh : list nat) (el : list Z) :
  is_contiguous {| shape := sh; elems := el; strides := contiguous_strides sh |} = true.
Proof.
  unfold is_contiguous. simpl.
  rewrite bool_decide_eq_true_2 by apply length_contiguous_strides. simpl.
  destruct (decide (size_of sh = 0%nat)) as [Hz|Hnz];
    [by rewrite bool_decide_eq_true_2|].
  rewrite bool_decide_eq_false_2 by done. simpl.
  unfold dims_rev, contiguous_strides. simpl.
  rewrite reverse_zip by (by rewrite length_reverse, length_strides_from, length_reverse).
  rewrite reverse_involutive. apply contiguous_from_default.
  by apply Forall_reverse, size_of_nonzero.
Qed.

Lemma is_contiguous_mkTensor (sh : list nat) (el : list Z) :
  is_contiguous (mkTensor sh el) = true.
Proof. apply is_contiguous_default. Qed.

Lemma is_contiguous_contiguous (t : Tensor) : is_contiguous (contiguous t) = true.
Proof. apply is_contiguous_default. Qed.

(** Rows cut out of a contiguous tensor are contiguous. *)
Lemma is_contiguous_rows (t : Tensor) (n k : nat) (rest : list nat) (el : list Z) :
  shape t = n :: rest → is_contiguous t = true → (k ≤ n)%nat →
  is_contiguous {| shape := k :: rest; elems := el; strides := strides t |} = true.
Proof.
  intros Hsh Hc Hk. unfold is_contiguous in *. simpl. rewrite Hsh in Hc.
  apply andb_true_iff in Hc as [Hlen Hc]. apply bool_decide_eq_true in Hlen.
  rewrite bool_decide_eq_true_2 by done. simpl.
  destruct (decide (size_of (k :: rest) = 0%nat)) as [Hz|Hnz];
    [by rewrite bool_decide_eq_true_2|].
  rewrite bool_decide_eq_false_2 by done. simpl.
  rewrite size_of_cons in Hnz.
  rewrite bool_decide_eq_false_2 in Hc by (rewrite size_of_cons; nia).
  simpl in Hc. unfold dims_rev in *. simpl. rewrite Hsh in Hc.
  destruct (strides t) as [|st0 srest]; [done|].
  simpl in *. rewrite reverse_cons, contiguous_from_app in *.
  apply andb_true_iff in Hc as [Hc1 Hc2]. rewrite Hc1. simpl in *.
  destruct (decide (k = 1%nat)) as [Hk1|Hk1]; [done|].
  destruct (decide (n = 1%nat)) as [Hn1|Hn1]; [lia|done].
Qed.

(** *** Views *)

(** Once a dimension of size other than 1 has been met, a contiguous
    tensor has one chunk. *)
Lemma chunks_contiguous (z : nat) (dims : list (nat * nat)) :
  contiguous_from z dims = true →
  chunks 1 z dims = [(1%nat, (z * count_of dims)%nat)].
Proof.
  revert z. induction dims as [|[d s] dims IH]; intros z Hc; simpl in *.
  - by rewrite Nat.mul_1_r.
  - case_decide as Hd.
    + subst d. rewrite decide_False by tauto. rewrite IH by (by rewrite Nat.mul_1_r).
      do 2 f_equal; lia.
    + apply andb_true_iff in Hc as [Hs Hc]. apply bool_decide_eq_true in Hs. subst s.
      rewrite decide_False by lia. rewrite IH by done. do 2 f_equal; lia.
Qed.

(** Before that, the dimensions of size 1 met so far make a chunk of
    their own when their stride is not 1. *)
Lemma chunks_contiguous_ones (base : nat) (dims : list (nat * nat)) :
  contiguous_from 1 dims = true →
  chunks base 1 dims = [(base, count_of dims)]
  ∨ chunks base 1 dims = [(base, 1%nat); (1%nat, count_of dims)].
Proof.
  induction dims as [|[d s] dims IH]; intros Hc; simpl in *; [by left|].
  case_decide as Hd.
  - subst d. rewrite decide_False by tauto. simpl.
    rewrite Nat.add_0_r. by apply IH.
  - apply andb_true_iff in Hc as [Hs Hc]. apply bool_decide_eq_true in Hs. subst s.
    rewrite ?Nat.add_0_r in *. destruct (decide (base = 1%nat)) as [->|Hb].
    + rewrite decide_False by lia. left. by rewrite chunks_contiguous.
    + rewrite decide_True by lia. right. by rewrite chunks_contiguous.
Qed.

Lemma assign_strides_flat (base count : nat) :
  count ≠ 0%nat → assign_strides [(base, count)] [count] = Some [(1 * base)%nat].
Proof.
  intros Hn. simpl. rewrite decide_True by lia. simpl.
  rewrite decide_True by lia. done.
Qed.

Lemma assign_strides_flat_ones (base count : nat) :
  count ≠ 0%nat → is_Some (assign_strides [(base, 1%nat); (1%nat, count)] [count]).
Proof.
  intros Hn. simpl. destruct (decide (count = 1%nat)) as [->|Hc].
  - simpl. by eexists.
  - rewrite decide_False by lia. simpl. rewrite decide_True by lia. simpl.
    rewrite decide_True by lia. by eexists.
Qed.

(** A contiguous tensor can be viewed as one dimension. *)
Lemma view_flat_contiguous (t : Tensor) :
  is_contiguous t = true → length (elems t) = size_of (shape t) →
  ∃ s, view_flat t = inr {| shape := [numel t]; elems := elems t; strides := s |}.
Proof.
  intros Hc Hwf. unfold view_flat, view_strides.
  case_decide as Hz; [by eexists|].
  unfold is_contiguous in Hc. apply andb_true_iff in Hc as [Hlen Hc].
  apply bool_decide_eq_true in Hlen.
  rewrite bool_decide_eq_false_2 in Hc by done. simpl in Hc.
  pose proof (count_of_dims_rev t Hlen) as Hcount.
  destruct (dims_rev t) as [|[d s] dims] eqn:Hdims; [by eexists|].
  assert (Hch : chunks s d dims = chunks s 1 ((d, s) :: dims)).
  { simpl. rewrite decide_False by lia. by rewrite Nat.add_0_r. }
  rewrite Hch. unfold numel. rewrite Hwf, <- Hcount.
  destruct (chunks_contiguous_ones s _ Hc) as [-> | ->]; rewrite reverse_singleton.
  - rewrite assign_strides_flat by lia. by eexists.
  - destruct (assign_strides_flat_ones s (count_of ((d, s) :: dims))) as [st ->]; [lia|].
    by eexists.
Qed.

(** A tensor of one dimension can be viewed as a matrix, whatever its
    stride. *)
Lemma view_rows_vector (t : Tensor) (m r : nat) :
  shape t = [m] → length (elems t) = m → (0 < r)%nat → (m `mod` r = 0)%nat →
  ∃ s, view_rows t (Z.of_nat r)
       = inr {| shape := [r; (m / r)%nat]; elems := elems t; strides := s |}.
Proof.
  intros Hsh Hlen Hr Hmod. unfold view_rows, numel. rewrite Hlen.
  assert (Hm : (m = r * (m / r))%nat) by (by apply Nat.Div0.div_exact).
  rewrite decide_True.
  2:{ split; [lia|]. rewrite <- Nat2Z.inj_mod, Hmod. done. }
  rewrite <- Nat2Z.inj_div, !Nat2Z.id.
  unfold view_strides. rewrite Hsh. case_decide as Hz; [by eexists|].
  unfold dims_rev. rewrite Hsh.
  destruct (strides t) as [|s st]; [by eexists|].
  simpl in Hz. simpl. set (c := (m / r)%nat) in *.
  rewrite decide_True by (destruct (decide (c = 1%nat)); [by right | left; nia]).
  simpl. rewrite decide_True by (destruct (decide (r = 1%nat)); [by right | left; nia]).
  simpl. rewrite decide_True by nia. by eexists.
Qed.
Example batchify_7_by_3 :
  batchify (mkTensor [7%nat] [10; 11; 12; 13; 14; 15; 16]) 3
  = inr (mkTensor [2%nat; 3%nat] [10; 12; 14; 11; 13; 15]).
Proof. reflexivity. Qed.

Example batchify_small :
  batchify (mkTensor [2%nat] [10; 11]) 3 = inr (mkTensor [0%nat; 3%nat] []).
Proof. reflexivity. Qed.

Example batchify_zero : batchify (mkTensor [2%nat] [10; 11]) 0 = inl ZeroDivisionError.
Proof. reflexivity. Qed.

Example get_batch_3 :
  get_batch (mkTensor [4%nat; 2%nat] [1; 2; 3; 4; 5; 6; 7; 8]) 1
  = inr (mkTensor [2%nat; 2%nat] [3; 4; 5; 6], mkTensor [4%nat] [5; 6; 7; 8]).
Proof. reflexivity. Qed.

(** ** Lists laid out as grids *)

Section Grid.
Context {A : Type}.

Lemma grid_length (f : nat → nat → A) (r c s : nat) :
  length (i ← seq s c; f i <$> seq 0 r) = (c * r)%nat.
Proof.
  revert s; induction c as [|c IH]; intros s; simpl; [done|].
  rewrite length_app, length_fmap, length_seq, IH. done.
Qed.

Lemma grid_lookup (f : nat → nat → A) (r c s i j : nat) :
  (i < c)%nat → (j < r)%nat →
  (i' ← seq s c; f i' <$> seq 0 r) !! (i * r + j)%nat = Some (f (s + i)%nat j).
Proof.
  revert s i; induction c as [|c IH]; intros s i Hi Hj; [lia|].
  simpl. destruct i as [|i].
  - rewrite lookup_app_l by (rewrite length_fmap, length_seq; lia).
    rewrite list_lookup_fmap, lookup_seq_lt by lia.
    simpl. by rewrite Nat.add_0_r.
  - rewrite lookup_app_r by (rewrite length_fmap, length_seq; lia).
    rewrite length_fmap, length_seq.
    replace (S i * r + j - r)%nat with (i * r + j)%nat by lia.
    rewrite IH by lia. f_equal. f_equal. lia.
Qed.
End Grid.

Lemma floordiv_pos (a b : Z) : 0 < b → floordiv a b = inr (a / b).
Proof. intros Hb. unfold floordiv. case_decide; [lia|done]. Qed.

(** What batchify computes on a vector of n elements, whatever its
    stride: contiguous() leaves the result in the row-major layout. *)
Lemma batchify_eval (data : Tensor) (n bsz : nat) :
  shape data = [n] → length (elems data) = n → (1 ≤ bsz)%nat →
  batchify data (Z.of_nat bsz)
  = inr (mkTensor [(n / bsz)%nat; bsz]
           (i ← seq 0 (n / bsz);
            (λ j, take (n / bsz * bsz) (elems data) !!! (j * (n / bsz) + i)%nat)
              <$> seq 0 bsz)).
Proof.
  intros Hsh Hlen Hb. unfold batchify, size0. rewrite Hsh. simpl.
  rewrite floordiv_pos by lia. simpl.
  pose proof (Nat.Div0.mul_div_le n bsz) as Hle.
  assert (Hq : Z.of_nat n / Z.of_nat bsz = Z.of_nat (n / bsz)) by (by rewrite Nat2Z.inj_div).
  rewrite Hq. unfold narrow0. rewrite Hsh.
  case_decide as Hc; [|lia]. simpl.
  unfold row_size. rewrite Hsh. simpl. rewrite drop_0, Nat.mul_1_r.
  replace (Z.to_nat (Z.of_nat (n / bsz) * Z.of_nat bsz)) with (n / bsz * bsz)%nat by lia.
  match goal with
  | |- context [view_rows ?t _] =>
      destruct (view_rows_vector t (n / bsz * bsz) bsz) as [s ->]
  end.
  - done.
  - simpl. rewrite length_take, Hlen. lia.
  - lia.
  - apply Nat.Div0.mod_mul.
  - simpl. unfold transpose. simpl. rewrite Nat.div_mul by lia. done.
Qed.

(** C8.  For a vector [data] of n elements and a batch size bsz >= 1,
    batchify returns a tensor of n // bsz rows and bsz columns whose
    element (i, j) is data[j * (n // bsz) + i]; the result has
    n - n mod bsz elements and is the same for every input that agrees
    with [data] on its first n - n mod bsz elements: the trailing
    n mod bsz elements contribute nothing. *)
Theorem batchify_spec (data : Tensor) (n bsz : nat) :
  shape data = [n] → length (elems data) = n → (1 ≤ bsz)%nat →
  ∃ out : Tensor,
    batchify data (Z.of_nat bsz) = inr out
    ∧ shape out = [(n / bsz)%nat; bsz]
    ∧ length (elems out) = (n - n `mod` bsz)%nat
    ∧ (∀ i j : nat, (i < n / bsz)%nat → (j < bsz)%nat →
         elems data !! (j * (n / bsz) + i)%nat = Some (get2 out i j))
    ∧ (∀ data' : Tensor,
         shape data' = [n] → length (elems data') = n →
         take (n - n `mod` bsz) (elems data') = take (n - n `mod` bsz) (elems data) →
         batchify data' (Z.of_nat bsz) = inr out).
Proof.
  intros Hsh Hlen Hb.
  assert (Hk : (n / bsz * bsz = n - n `mod` bsz)%nat).
  { pose proof (Nat.div_mod_eq n bsz). lia. }
  eexists. split; [by apply batchify_eval|]. simpl.
  split; [done|]. split; [by rewrite grid_length|]. split.
  - intros i j Hi Hj. unfold get2. simpl.
    assert (Hin : (j * (n / bsz) + i < n / bsz * bsz)%nat) by nia.
    erewrite list_lookup_total_correct; last by apply (grid_lookup _ bsz (n / bsz) 0 i j).
    simpl. rewrite lookup_total_take_lt by done.
    destruct (elems data !! (j * (n / bsz) + i)%nat) as [x|] eqn:Hx.
    + by erewrite list_lookup_total_correct.
    + apply lookup_ge_None in Hx. lia.
  - intros data' Hsh' Hlen' Htake.
    rewrite (batchify_eval data' n bsz) by done.
    by rewrite Hk, Htake.
Qed.

(** At 7 elements and batch size 3 the last element is dropped. *)
Lemma batchify_spec_witness :
  ∃ out : Tensor,
    batchify (mkTensor [7%nat] [10; 11; 12; 13; 14; 15; 16]) (Z.of_nat 3) = inr out
    ∧ shape out = [(7 / 3)%nat; 3%nat]
    ∧ length (elems out) = (7 - 7 `mod` 3)%nat
    ∧ (∀ i j : nat, (i < 7 / 3)%nat → (j < 3)%nat →
         [10; 11; 12; 13; 14; 15; 16] !! (j * (7 / 3) + i)%nat = Some (get2 out i j))
    ∧ (∀ data' : Tensor,
         shape data' = [7%nat] → length (elems data') = 7%nat →
         take (7 - 7 `mod` 3) (elems data') = take (7 - 7 `mod` 3) [10; 11; 12; 13; 14; 15; 16] →
         batchify data' (Z.of_nat 3) = inr out).
Proof.
  apply (batchify_spec (mkTensor [7%nat] [10; 11; 12; 13; 14; 15; 16]) 7 3);
    [reflexivity | reflexivity | lia].
Defined.

(** ** get_batch *)

Lemma slice_bound_in_range (n k : Z) : 0 ≤ k ≤ n → slice_bound n k = k.
Proof. intros Hk. unfold slice_bound. case_decide; lia. Qed.

(** A slice that lies within the rows of the tensor. *)
Lemma getslice_in_range (t : Tensor) (n : nat) (rest : list nat) (a b : Z) :
  shape t = n :: rest → 0 ≤ a → a ≤ b → b ≤ Z.of_nat n →
  getslice t a b
  = inr {| shape := Z.to_nat (b - a) :: rest;
           elems := take (Z.to_nat (b - a) * row_size t)
                         (drop (Z.to_nat a * row_size t) (elems t));
           strides := strides t |}.
Proof.
  intros Hsh Ha Hab Hb. unfold getslice. rewrite Hsh.
  by rewrite !slice_bound_in_range by lia.
Qed.

Lemma row_size_size_of (t : Tensor) (n : nat) (rest : list nat) :
  shape t = n :: rest → row_size t = size_of rest.
Proof. intros Hsh. unfold row_size. by rewrite Hsh. Qed.

(** The rows a slice of get_batch takes, at any index i >= 0: the
    bounds are clamped to the rows of the source. *)
Lemma getslice_batch (t : Tensor) (n : nat) (rest : list nat) (i j : Z) :
  shape t = n :: rest → 0 ≤ j → j ≤ i ≤ j + 1 →
  let k := Z.to_nat (batch_rows (Z.of_nat n) j) in
  getslice t i (i + batch_rows (Z.of_nat n) j)
  = inr {| shape := k :: rest;
           elems := take (k * row_size t) (drop (Z.to_nat i * row_size t) (elems t));
           strides := strides t |}.
Proof.
  intros Hsh Hj Hji k. unfold getslice. rewrite Hsh.
  set (lo := slice_bound (Z.of_nat n) i).
  set (hi := slice_bound (Z.of_nat n) (i + batch_rows (Z.of_nat n) j)).
  assert (Hk : Z.to_nat (hi - lo) = k ∧ (k ≠ 0%nat → lo = i)).
  { unfold hi, lo, k, slice_bound, batch_rows, sequence_len.
    repeat case_decide; lia. }
  destruct Hk as [-> Hlo]. f_equal. f_equal.
  destruct (decide (k = 0%nat)) as [->|Hk]; [done|]. by rewrite Hlo.
Qed.

(** What get_batch returns, when it returns, on a source of any
    layout. *)
Lemma get_batch_outcome (source : Tensor) (n : nat) (rest : list nat) (i : Z)
    (b : Tensor * Tensor) :
  shape source = n :: rest → well_formed source → 0 ≤ i →
  get_batch source i = inr b →
  let k := Z.to_nat (batch_rows (Z.of_nat n) i) in
  let rs := row_size source in
  ∃ st : list nat,
    b = ({| shape := k :: rest;
            elems := take (k * rs) (drop (Z.to_nat i * rs) (elems source));
            strides := strides source |},
         {| shape := [(k * rs)%nat];
            elems := take (k * rs) (drop (Z.to_nat (i + 1) * rs) (elems source));
            strides := st |}).
Proof.
  intros Hsh Hwf Hi Hget k rs.
  assert (Hlen : length (elems source) = (n * rs)%nat).
  { unfold well_formed in Hwf. rewrite Hsh in Hwf. simpl in Hwf.
    unfold rs, row_size. by rewrite Hsh. }
  assert (Hk : k = 0%nat ∨ (Z.to_nat (i + 1) + k ≤ n)%nat)
    by (unfold k, batch_rows, sequence_len; lia).
  assert (Hl : length (take (k * rs) (drop (Z.to_nat (i + 1) * rs) (elems source)))
               = (k * rs)%nat).
  { rewrite length_take, length_drop, Hlen. destruct Hk as [->|Hk]; [done|nia]. }
  revert Hget. unfold get_batch, len. rewrite Hsh. simpl.
  fold (batch_rows (Z.of_nat n) i).
  rewrite (getslice_batch source n rest i i) by (done || lia).
  rewrite (getslice_batch source n rest (i + 1) i) by (done || lia).
  fold k rs. simpl. unfold view_flat.
  match goal with
  | |- context [view_strides ?t ?new] => destruct (view_strides t new) as [st|]
  end; [|done].
  simpl. unfold numel. simpl. rewrite Hl. intros [= <-]. by exists st.
Qed.

(** get_batch on a contiguous source, at any index i >= 0. *)
Lemma get_batch_contiguous (source : Tensor) (n : nat) (rest : list nat) (i : Z) :
  shape source = n :: rest → well_formed source → is_contiguous source = true → 0 ≤ i →
  let k := Z.to_nat (batch_rows (Z.of_nat n) i) in
  let rs := row_size source in
  ∃ st : list nat,
    get_batch source i
    = inr ({| shape := k :: rest;
              elems := take (k * rs) (drop (Z.to_nat i * rs) (elems source));
              strides := strides source |},
           {| shape := [(k * rs)%nat];
              elems := take (k * rs) (drop (Z.to_nat (i + 1) * rs) (elems source));
              strides := st |}).
Proof.
  intros Hsh Hwf Hc Hi k rs.
  assert (Hlen : length (elems source) = (n * rs)%nat).
  { unfold well_formed in Hwf. rewrite Hsh in Hwf. simpl in Hwf.
    unfold rs, row_size. by rewrite Hsh. }
  assert (Hk : k = 0%nat ∨ (Z.to_nat (i + 1) + k ≤ n)%nat)
    by (unfold k, batch_rows, sequence_len; lia).
  assert (Hl : length (take (k * rs) (drop (Z.to_nat (i + 1) * rs) (elems source)))
               = (k * rs)%nat).
  { rewrite length_take, length_drop, Hlen. destruct Hk as [->|Hk]; [done|nia]. }
  assert (Hreturns : ∃ b, get_batch source i = inr b).
  { unfold get_batch, len. rewrite Hsh. simpl.
    fold (batch_rows (Z.of_nat n) i).
    rewrite (getslice_batch source n rest i i) by (done || lia).
    rewrite (getslice_batch source n rest (i + 1) i) by (done || lia).
    fold k rs. simpl.
    match goal with
    | |- context [view_flat ?t] => destruct (view_flat_contiguous t) as [st ->]
    end; [| |by eexists].
    - apply (is_contiguous_rows source n k rest); [done..|].
      unfold k, batch_rows, sequence_len. lia.
    - cbn [shape elems]. rewrite Hl, size_of_cons. f_equal.
      by apply (row_size_size_of source n). }
  destruct Hreturns as [b Hb]. rewrite Hb.
  destruct (get_batch_outcome source n rest i b Hsh Hwf Hi Hb) as [st ->].
  by exists st.
Qed.

(** Row k of a block of rows cut out of a list. *)
Lemma block_row (l : list Z) (rs a len k : nat) :
  (k < len)%nat →
  take rs (drop (k * rs) (take (len * rs) (drop (a * rs) l)))
  = take rs (drop ((a + k) * rs) l).
Proof.
  intros Hk. apply list_eq. intros j.
  rewrite !lookup_take, !lookup_drop. case_decide as Hj; [|done].
  rewrite lookup_take, lookup_drop.
  case_decide as Hj'; [f_equal; lia | nia].
Qed.

Lemma row_length (t : Tensor) (n : nat) (rest : list nat) (k : nat) :
  shape t = n :: rest → well_formed t → (k < n)%nat →
  length (row t k) = row_size t.
Proof.
  intros Hsh Hwf Hk. unfold row, well_formed, row_size in *.
  rewrite Hsh in *. simpl in *.
  rewrite length_take, length_drop, Hwf. nia.
Qed.




(** The transpose of a 2 x 3 matrix cannot be viewed flat; one row of
    it can, and so can the whole after contiguous(). *)
Example view_flat_transposed :
  let source := mkStrided [3%nat; 2%nat] [1; 4; 2; 5; 3; 6] [1%nat; 3%nat] in
  view_flat source = inl RuntimeError
  ∧ (getslice source 1 2 ≫= view_flat) = inr (mkStrided [2%nat] [2; 5] [3%nat])
  ∧ view_flat (contiguous source) = inr (mkTensor [6%nat] [1; 4; 2; 5; 3; 6])
  ∧ get_batch (contiguous source) 0
    = inr (mkTensor [2%nat; 2%nat] [1; 4; 2; 5], mkTensor [4%nat] [2; 5; 3; 6]).
Proof. repeat split. Qed.

(** ** Computations of a cell *)

Section Cells.
Context `{Framework} {S : Type}.

Lemma M_bind_unfold {A B : Type} (m : M S A) (k : A → M S B) (σ : S * list Event) :
  (m ≫= k) σ = match m σ with
               | (σ', inl e) => (σ', inl e)
               | (σ', inr a) => k a σ'
               end.
Proof. reflexivity. Qed.

Lemma call_bind {A B : Type} (c : Call) (r : Err A) (k : A → M S B) (σ : S * list Event) :
  (call c r ≫= k) σ = match r with
                      | inl e => ((σ.1, σ.2 ++ [EvCall c (Some e)]), inl e)
                      | inr a => k a (σ.1, σ.2 ++ [EvCall c None])
                      end.
Proof. rewrite M_bind_unfold. unfold call. by destruct r. Qed.

Lemma for_fold_cons {A B : Type} (body : B → A → M S B) (b : B) (x : A) (l : list A) :
  for_fold body b (x :: l) = body b x ≫= (λ b', for_fold body b' l).
Proof. reflexivity. Qed.
End Cells.

(** ** evaluate *)

Section Evaluate.
Context `{Framework} {S : Type}.
Variables (ntokens : Z) (model : RNN) (data_source : Tensor).

(** The loop of evaluate accumulates the weighted losses of the
    batches, in order. *)
Lemma evaluate_loop_result (starts : list Z) (total_loss : Float) (hidden : Hidden)
    (σ : S * list Event) :
  training model = false →
  (for_fold (evaluate_step model ntokens data_source) (total_loss, hidden) starts σ).2
    ≫= (λ vars, mret vars.1)
  = batch_losses model ntokens data_source hidden starts
    ≫= (λ l, mret (foldl (λ acc p, f_add acc (f_mul_int p.1 p.2)) total_loss l)).
Proof.
  intros Hmode. revert total_loss hidden σ.
  induction starts as [|i starts IH]; intros total_loss hidden σ; [done|].
  rewrite for_fold_cons, M_bind_unfold.
  set (loop := for_fold (evaluate_step model ntokens data_source)) in *.
  unfold evaluate_step. rewrite call_bind. simpl.
  destruct (get_batch data_source i) as [e|[data targets]]; [done|]. simpl.
  rewrite call_bind, Hmode.
  destruct (forward model false data hidden) as [e|[output hidden']]; [done|]. simpl.
  rewrite call_bind.
  destruct (view_tokens output ntokens) as [e|output_flat]; [done|]. simpl.
  rewrite call_bind.
  destruct (len data) as [e|rows]; [done|]. simpl.
  rewrite call_bind.
  destruct (criterion output_flat targets) as [e|loss]; [done|]. simpl.
  rewrite IH.
  by destruct (batch_losses model ntokens data_source (repackage_hidden hidden') starts).
Qed.
End Evaluate.

(** ** Computations without handlers *)

Section Propagation.
Context `{Framework} {S : Type}.

Lemma propagates_ret {A : Type} (a : A) : propagates (mret a : M S A).
Proof. intros σ. exists []. split; [by rewrite app_nil_r | by constructor]. Qed.

Lemma propagates_call {A : Type} (c : Call) (r : Err A) : propagates (call c r : M S A).
Proof.
  intros σ. exists [EvCall c (raised_by r)]. split; [done|].
  unfold call. simpl. destruct r as [e|a]; simpl.
  - exists [], c. split; [done | by constructor].
  - by repeat constructor.
Qed.

Lemma propagates_gets {A : Type} (f : S → A) : propagates (gets f).
Proof. intros σ. exists []. split; [by rewrite app_nil_r | by constructor]. Qed.

Lemma propagates_modify (f : S → S) : propagates (modify f).
Proof. intros σ. exists []. split; [by rewrite app_nil_r | by constructor]. Qed.

Lemma propagates_print (ev : Event) : raised ev = None → propagates (print ev : M S unit).
Proof. intros Hev σ. exists [ev]. split; [done | by repeat constructor]. Qed.

Lemma propagates_bind {A B : Type} (m : M S A) (k : A → M S B) :
  propagates m → (∀ a, propagates (k a)) → propagates (m ≫= k).
Proof.
  intros Hm Hk σ. rewrite M_bind_unfold.
  destruct (Hm σ) as (l1 & Hl1 & Hr1).
  destruct (m σ) as [σ1 [e|a]]; simpl in *.
  - by exists l1.
  - destruct (Hk a σ1) as (l2 & Hl2 & Hr2).
    exists (l1 ++ l2). split; [by rewrite Hl2, Hl1, app_assoc|].
    destruct ((k a σ1).2) as [e|b]; simpl in *.
    + destruct Hr2 as (l0 & c & -> & Hl0).
      exists (l1 ++ l0), c. split; [by rewrite app_assoc | by apply Forall_app].
    + by apply Forall_app.
Qed.

Lemma propagates_for_fold {A B : Type} (body : B → A → M S B) (l : list A) :
  (∀ b x, propagates (body b x)) → ∀ b, propagates (for_fold body b l).
Proof.
  intros Hbody. induction l as [|x l IH]; intros b.
  - apply propagates_ret.
  - rewrite for_fold_cons. apply propagates_bind; [apply Hbody | apply IH].
Qed.

Lemma propagates_for_each {A : Type} (body : A → M S unit) (l : list A) :
  (∀ x, propagates (body x)) → propagates (for_each body l).
Proof. intros Hbody. apply propagates_for_fold. intros _ x. apply Hbody. Qed.

End Propagation.

(** Goals [propagates m] for a computation written with the operations
    above. *)
Ltac propagate :=
  repeat first
    [ apply propagates_ret
    | apply propagates_call
    | apply propagates_gets
    | apply propagates_modify
    | apply propagates_print; reflexivity
    | apply propagates_bind; [|intros ?]
    | apply propagates_for_each; intros ?
    | apply propagates_for_fold; intros ? ?
    | match goal with
      | |- context [match ?x with (_, _) => _ end] => destruct x
      end ].

Section PropagationEvaluate.
Context `{Framework} {S : Type}.

Lemma propagates_evaluate_step (ntokens : Z) (model : RNN) (data_source : Tensor)
    (vars : Float * Hidden) (i : Z) :
  propagates (evaluate_step (S := S) model ntokens data_source vars i).
Proof. unfold evaluate_step. propagate. Qed.

Lemma propagates_evaluate (ntokens : Z) (model : RNN) (data_source : Tensor) :
  propagates (evaluate (S := S) ntokens model data_source).
Proof.
  unfold evaluate. propagate.
  all: apply propagates_evaluate_step.
Qed.

Lemma propagates_evaluate_and_print (ntokens : Z) (model : RNN) (val_data : Tensor) :
  propagates (evaluate_and_print (S := S) ntokens model val_data).
Proof.
  unfold evaluate_and_print.
  apply propagates_bind; [apply propagates_evaluate | intros val_loss; propagate].
Qed.
End PropagationEvaluate.


Section EvaluateSpec.
Context `{Framework} {S : Type}.

Lemma len_size0 (t : Tensor) (n : Z) : size0 t = inr n → len t = inr n.
Proof. unfold size0, len. by destruct (shape t). Qed.

(** The per-batch losses are those of the model in evaluation mode. *)
Lemma batch_losses_set_eval (ntokens : Z) (model : RNN) (data_source : Tensor)
    (starts : list Z) (hidden : Hidden) :
  batch_losses (set_eval model) ntokens data_source hidden starts
  = batch_losses model ntokens data_source hidden starts.
Proof.
  revert hidden. induction starts as [|i starts IH]; intros hidden; [done|].
  simpl. destruct (get_batch data_source i) as [e|[data targets]]; [done|]. simpl.
  destruct (forward model false data hidden) as [e|[output hidden']]; [done|]. simpl.
  destruct (view_tokens output ntokens) as [e|output_flat]; [done|]. simpl.
  destruct (len data) as [e|rows]; [done|]. simpl.
  destruct (criterion output_flat targets) as [e|loss]; [done|]. simpl.
  by rewrite IH.
Qed.

(** What evaluate returns. *)
Lemma evaluate_result (ntokens : Z) (model : RNN) (data_source : Tensor)
    (σ : S * list Event) :
  (evaluate ntokens model data_source σ).2 = average_loss ntokens model data_source.
Proof.
  unfold evaluate, average_loss.
  rewrite call_bind. simpl.
  destruct (init_hidden model eval_batch_size) as [e|hidden]; [done|]. simpl.
  rewrite call_bind.
  destruct (size0 data_source) as [e|n] eqn:Hn; [done|]. simpl.
  rewrite M_bind_unfold.
  match goal with
  | |- context [for_fold ?body (f_zero, hidden) ?starts ?σ'] =>
      pose proof (evaluate_loop_result ntokens (set_eval model) data_source
                    starts f_zero hidden σ' eq_refl) as Hloop;
      destruct (for_fold body (f_zero, hidden) starts σ') as [σ3 [e|[total hidden']]]
  end; simpl in Hloop.
  - rewrite batch_losses_set_eval in Hloop.
    by destruct (batch_losses model ntokens data_source hidden
                   (py_range 0 n sequence_len)).
  - rewrite batch_losses_set_eval in Hloop.
    destruct (batch_losses model ntokens data_source hidden
                (py_range 0 n sequence_len)) as [e|l]; [done|].
    simpl in *. injection Hloop as ->.
    rewrite call_bind, (len_size0 _ _ Hn). done.
Qed.

End EvaluateSpec.

(** ** The forward passes of evaluate *)

Section ForwardCalls.
Context `{Framework} {S : Type}.

Lemma forward_calls_app (l1 l2 : list Event) :
  forward_calls (l1 ++ l2) = (forward_calls l1 + forward_calls l2)%nat.
Proof. apply sum_list_with_app. Qed.

Lemma py_range_length (n : Z) :
  length (py_range 0 n sequence_len) = Z.to_nat ((n + 34) / 35).
Proof.
  unfold py_range, sequence_len. case_decide; [|lia].
  rewrite length_fmap, length_seq. f_equal. f_equal. lia.
Qed.

(** Each iteration of the loop runs the model at most once, and once
    when it completes. *)
Lemma loop_forward_calls (ntokens : Z) (model : RNN) (data_source : Tensor)
    (starts : list Z) (vars : Float * Hidden) (σ : S * list Event) :
  let res := for_fold (evaluate_step model ntokens data_source) vars starts σ in
  match res.2 with
  | inr _ => forward_calls res.1.2 = (forward_calls σ.2 + length starts)%nat
  | inl _ => (forward_calls res.1.2 ≤ forward_calls σ.2 + length starts)%nat
  end.
Proof.
  revert vars σ. induction starts as [|i starts IH]; intros [total_loss hidden] σ.
  { simpl. lia. }
  simpl. rewrite M_bind_unfold.
  set (loop := for_fold (evaluate_step model ntokens data_source)) in *.
  unfold evaluate_step. rewrite call_bind.
  destruct (get_batch data_source i) as [e|[data targets]]; simpl.
  { rewrite forward_calls_app. simpl. lia. }
  rewrite call_bind.
  destruct (forward model (training model) data hidden) as [e|[output hidden']]; simpl.
  { rewrite !forward_calls_app. simpl. lia. }
  rewrite call_bind.
  destruct (view_tokens output ntokens) as [e|output_flat]; simpl.
  { rewrite !forward_calls_app. simpl. lia. }
  rewrite call_bind.
  destruct (len data) as [e|rows]; simpl.
  { rewrite !forward_calls_app. simpl. lia. }
  rewrite call_bind.
  destruct (criterion output_flat targets) as [e|loss]; simpl.
  { rewrite !forward_calls_app. simpl. lia. }
  match goal with
  | |- context [loop ?v starts ?σ'] =>
      specialize (IH v σ'); simpl in IH; destruct (loop v starts σ').2
  end; rewrite !forward_calls_app in IH; simpl in IH; lia.
Qed.

(** evaluate runs the model once per start index of
    range(0, rows, 35): ceil(rows / 35) forward passes when it
    returns, and no more than that when it raises. *)
Lemma evaluate_forward_calls (ntokens : Z) (model : RNN) (n : nat) (rest : list nat)
    (values : list Z) (layout : list nat) (σ : S * list Event) :
  let res := evaluate ntokens model (mkStrided (n :: rest) values layout) σ in
  let batches := Z.to_nat ((Z.of_nat n + 34) / 35) in
  match res.2 with
  | inr _ => forward_calls res.1.2 = (forward_calls σ.2 + batches)%nat
  | inl _ => (forward_calls res.1.2 ≤ forward_calls σ.2 + batches)%nat
  end.
Proof.
  simpl. unfold evaluate. rewrite call_bind.
  destruct (init_hidden (set_eval model) eval_batch_size) as [e|hidden]; simpl.
  { rewrite forward_calls_app. simpl. lia. }
  rewrite call_bind. simpl. rewrite M_bind_unfold.
  match goal with
  | |- context [for_fold ?body ?v ?starts ?σ'] =>
      pose proof (loop_forward_calls ntokens (set_eval model)
                    (mkStrided (n :: rest) values layout) starts v σ') as Hloop;
      destruct (for_fold body v starts σ') as [σ3 [e|[total hidden']]]
  end; simpl in Hloop; rewrite py_range_length, !forward_calls_app in Hloop;
    simpl in Hloop.
  { simpl. lia. }
  rewrite call_bind. simpl. unfold call. simpl.
  destruct (truediv total (Z.of_nat n)); simpl; rewrite !forward_calls_app; simpl; lia.
Qed.
End ForwardCalls.

(** ** Runs that return *)

Section Runs.
Context `{Framework} {S : Type}.

Lemma runs_to_ret {A : Type} (a : A) (s : S) : runs_to (mret a) s s a.
Proof. intros log. by exists log. Qed.

Lemma runs_to_gets {A : Type} (f : S → A) (s : S) : runs_to (gets f) s s (f s).
Proof. intros log. by exists log. Qed.

Lemma runs_to_modify (f : S → S) (s : S) : runs_to (modify f) s (f s) ().
Proof. intros log. by exists log. Qed.

Lemma runs_to_print (ev : Event) (s : S) : runs_to (print ev) s s ().
Proof. intros log. by exists (log ++ [ev]). Qed.

Lemma runs_to_call {A : Type} (c : Call) (a : A) (s : S) : runs_to (call c (inr a)) s s a.
Proof. intros log. by exists (log ++ [EvCall c None]). Qed.

Lemma runs_to_bind {A B : Type} (m : M S A) (k : A → M S B) (s s1 s2 : S) (a : A) (b : B) :
  runs_to m s s1 a → runs_to (k a) s1 s2 b → runs_to (m ≫= k) s s2 b.
Proof.
  intros Hm Hk log. destruct (Hm log) as [log1 H1]. destruct (Hk log1) as [log2 H2].
  exists log2. by rewrite M_bind_unfold, H1.
Qed.

(** A loop whose body always returns, under an invariant of the store. *)
Lemma runs_to_for_each {A : Type} (P : S → Prop) (body : A → M S ()) (f : S → A → S)
    (l : list A) (s : S) :
  P s →
  (∀ x s, P s → runs_to (body x) s (f s x) () ∧ P (f s x)) →
  runs_to (for_each body l) s (foldl f s l) () ∧ P (foldl f s l).
Proof.
  intros Hs Hbody. revert s Hs. induction l as [|x l IH]; intros s Hs.
  - split; [apply runs_to_ret | done].
  - destruct (Hbody x s Hs) as [Hx HP]. destruct (IH _ HP) as [Hl HP'].
    split; [|done]. unfold for_each. rewrite for_fold_cons.
    eapply runs_to_bind; [apply Hx | apply Hl].
Qed.
End Runs.

(** One statement of a cell that returns: a read or a write of the
    store, a call that returns, or a print. *)
Ltac run_step :=
  eapply runs_to_bind;
    [ first [ apply runs_to_gets | apply runs_to_modify | apply runs_to_call
            | apply runs_to_print | apply runs_to_ret ] |].

(** ** The capture cell *)

Section Capture.
Context `{Framework}.
Variable names : gmap nat string.

Lemma register_runs (nb : Notebook) (m : NNModule) :
  runs_to (register_forward_hook names m) nb (registered names nb m) ().
Proof.
  unfold register_forward_hook, registered.
  destruct (names !! m); [|apply runs_to_ret].
  eapply runs_to_bind; [|apply runs_to_modify].
  unfold module_register_forward_hook. do 3 run_step. apply runs_to_ret.
Qed.

Lemma save_conv_output_runs (nb : Notebook) (m : NNModule) (o : FTensor) (name : string) :
  names !! m = Some name →
  runs_to (save_conv_output names m o) nb
          (set_intermediary_results <[name := to_numpy o]> nb) ().
Proof.
  intros Hname. unfold save_conv_output. rewrite Hname.
  run_step. apply runs_to_modify.
Qed.

Lemma set_results_twice (nb : Notebook) (name : string) (a : NdArray) :
  set_intermediary_results <[name := a]> (set_intermediary_results <[name := a]> nb)
  = set_intermediary_results <[name := a]> nb.
Proof. unfold set_intermediary_results. simpl. f_equal. apply insert_insert_eq. Qed.

(** The hooks of one module: every one of them stores the same entry. *)
Lemma hooks_run (nb : Notebook) (m : NNModule) (o : FTensor) (name : string)
    (hs : list (nat * Hook)) :
  names !! m = Some name →
  runs_to (for_each (λ kh : nat * Hook, run_hook names kh.2 m o) hs) nb
          (match hs with
           | [] => nb
           | _ :: _ => set_intermediary_results <[name := to_numpy o]> nb
           end) ().
Proof.
  intros Hname. revert nb. induction hs as [|[k hook] hs IH]; intros nb.
  - apply runs_to_ret.
  - unfold for_each. rewrite for_fold_cons.
    eapply runs_to_bind.
    { destruct hook. simpl. by apply save_conv_output_runs. }
    specialize (IH (set_intermediary_results <[name := to_numpy o]> nb)).
    destruct hs; [apply IH|]. by rewrite set_results_twice in IH.
Qed.

Lemma fire_hooks_runs (nb : Notebook) (mo : NNModule * FTensor) :
  (∀ m, hooks_of nb m ≠ [] → is_Some (names !! m)) →
  runs_to (fire_hooks names mo) nb (fired names nb mo) ().
Proof.
  intros Hnamed. unfold fire_hooks, fired.
  run_step.
  destruct (hooks_of nb mo.1) as [|kh hs] eqn:Hhs; [apply runs_to_ret|].
  destruct (Hnamed mo.1) as [name Hname]; [by rewrite Hhs|].
  rewrite Hname. by apply (hooks_run nb mo.1 mo.2 name (kh :: hs)).
Qed.

Lemma hooks_of_fired (nb : Notebook) (mo : NNModule * FTensor) (m : NNModule) :
  hooks_of (fired names nb mo) m = hooks_of nb m.
Proof. unfold fired. by destruct (hooks_of nb mo.1), (names !! mo.1). Qed.

Lemma removed_runs (nb : Notebook) (h : Handle) :
  runs_to (handle_remove h) nb (removed nb h) ().
Proof. unfold handle_remove, removed. apply runs_to_modify. Qed.

(** *** Registration *)

Lemma hooks_of_registered (nb : Notebook) (x m : NNModule) :
  hooks_of (registered names nb x) m
  = match names !! x with
    | Some _ =>
        if decide (x = m)
        then hooks_of nb x ++ [(next_handle_id nb, save_conv_output_hook)]
        else hooks_of nb m
    | None => hooks_of nb m
    end.
Proof.
  unfold registered. destruct (names !! x); [|done].
  unfold hooks_of at 1. simpl. rewrite lookup_insert.
  by case_decide; subst.
Qed.

Lemma cb_handles_registered (nb : Notebook) (x : NNModule) :
  cb_handles (registered names nb x)
  = match names !! x with
    | Some _ => cb_handles nb ++ [mkHandle x (next_handle_id nb)]
    | None => cb_handles nb
    end.
Proof. unfold registered. by destruct (names !! x). Qed.

Lemma registered_frame (nb : Notebook) (x : NNModule) :
  intermediary_results (registered names nb x) = intermediary_results nb
  ∧ files (registered names nb x) = files nb.
Proof. unfold registered. by destruct (names !! x). Qed.

(** After [apply], the modules that carry a hook are the hooked
    ones, and every hook has its handle in cb_handles. *)
Lemma registered_all (modules : list NNModule) (nb0 : Notebook) :
  forward_hooks nb0 = ∅ → cb_handles nb0 = [] →
  let nb := foldl (registered names) nb0 modules in
  (∀ m, hooks_of nb m ≠ [] ↔ hooked names modules m)
  ∧ (∀ m kh, kh ∈ hooks_of nb m → mkHandle m kh.1 ∈ cb_handles nb)
  ∧ intermediary_results nb = intermediary_results nb0
  ∧ files nb = files nb0.
Proof.
  intros Hh0 Hc0. induction modules as [|x modules IH] using rev_ind; simpl.
  - unfold hooks_of, hooked. rewrite Hh0. split; [|split; [|done]].
    + intros m. rewrite lookup_empty. simpl. split; [done|]. intros [Hm _].
      by apply elem_of_nil in Hm.
    + intros m kh. rewrite lookup_empty. simpl. intros Hkh. by apply elem_of_nil in Hkh.
  - rewrite foldl_app. simpl.
    destruct IH as (IH1 & IH2 & IH3 & IH4).
    set (nb := foldl (registered names) nb0 modules) in *.
    destruct (registered_frame nb x) as [Hf1 Hf2].
    split; [|split; [|split; congruence]].
    + intros m. rewrite hooks_of_registered. unfold hooked in *.
      rewrite elem_of_app, list_elem_of_singleton.
      destruct (names !! x) as [name|] eqn:Hx.
      * case_decide as Hxm.
        -- subst m. split; [intros _|intros _].
           ++ split; [by right | by rewrite Hx].
           ++ by destruct (hooks_of nb x).
        -- rewrite IH1. split; [intros [? ?]; split; [by left|done]|].
           intros [[?|?] ?]; [done|congruence].
      * rewrite IH1. split; [intros [? ?]; split; [by left|done]|].
        intros [[?| ->] Hs]; [done|]. rewrite Hx in Hs. by destruct Hs.
    + intros m kh. rewrite hooks_of_registered, cb_handles_registered.
      destruct (names !! x) as [name|] eqn:Hx; [|apply IH2].
      case_decide as Hxm.
      * subst m. rewrite !elem_of_app, !list_elem_of_singleton.
        intros [Hold| ->]; [left; by apply IH2 | by right].
      * intros Hkh. rewrite elem_of_app. left. by apply IH2.
Qed.

(** *** The forward pass *)

Lemma fired_frame (nb : Notebook) (mo : NNModule * FTensor) :
  forward_hooks (fired names nb mo) = forward_hooks nb
  ∧ cb_handles (fired names nb mo) = cb_handles nb
  ∧ files (fired names nb mo) = files nb.
Proof. unfold fired. by destruct (hooks_of nb mo.1), (names !! mo.1). Qed.

Lemma fired_all (modules : list NNModule) (calls : list (NNModule * FTensor))
    (nb : Notebook) :
  (∀ m, hooks_of nb m ≠ [] ↔ hooked names modules m) →
  let nb' := foldl (fired names) nb calls in
  forward_hooks nb' = forward_hooks nb
  ∧ cb_handles nb' = cb_handles nb
  ∧ files nb' = files nb
  ∧ intermediary_results nb'
    = foldl (λ d mo,
               match names !! mo.1 with
               | Some name =>
                   if decide (mo.1 ∈ modules) then <[name := to_numpy mo.2]> d else d
               | None => d
               end) (intermediary_results nb) calls.
Proof.
  revert nb. induction calls as [|mo calls IH]; intros nb Hhooks; [done|].
  simpl. destruct (fired_frame nb mo) as (Hf1 & Hf2 & Hf3).
  destruct (IH (fired names nb mo)) as (IH1 & IH2 & IH3 & IH4).
  { intros m. by rewrite hooks_of_fired. }
  split; [congruence|]. split; [congruence|]. split; [congruence|].
  rewrite IH4. f_equal. unfold fired.
  pose proof (Hhooks mo.1) as Hmo. unfold hooked in Hmo.
  destruct (hooks_of nb mo.1) as [|kh hs], (names !! mo.1) as [name|] eqn:Hname;
    try done.
  - case_decide as Hin; [|done]. exfalso.
    apply (proj2 Hmo); [by split|done].
  - destruct (proj1 Hmo) as [Hin _]; [done|]. by rewrite decide_True.
Qed.

(** *** Removing the handles *)

Lemma hooks_of_removed (nb : Notebook) (h : Handle) (m : NNModule) :
  hooks_of (removed nb h) m
  = if decide (handle_module h = m)
    then filter (λ kh, kh.1 ≠ handle_id h) (hooks_of nb m)
    else hooks_of nb m.
Proof.
  unfold removed, hooks_of. simpl. case_decide as Hm.
  - subst m. rewrite lookup_alter_eq. by destruct (forward_hooks nb !! handle_module h).
  - by rewrite lookup_alter_ne.
Qed.

Lemma removed_all (hs : list Handle) (nb : Notebook) (m : NNModule) (kh : nat * Hook) :
  kh ∈ hooks_of (foldl removed nb hs) m →
  kh ∈ hooks_of nb m ∧ mkHandle m kh.1 ∉ hs.
Proof.
  revert nb. induction hs as [|h hs IH]; intros nb; simpl.
  - intros Hkh. split; [done|]. apply not_elem_of_nil.
  - intros Hkh. apply IH in Hkh as [Hkh Hnot].
    rewrite hooks_of_removed in Hkh. rewrite not_elem_of_cons.
    case_decide as Hm.
    + apply list_elem_of_filter in Hkh as [Hne Hkh]. split; [done|].
      split; [|done]. destruct h as [hm hid]. simpl in *. congruence.
    + split; [done|]. split; [|done]. destruct h as [hm hid]. simpl in *. congruence.
Qed.

Lemma removed_frame (hs : list Handle) (nb : Notebook) :
  intermediary_results (foldl removed nb hs) = intermediary_results nb
  ∧ files (foldl removed nb hs) = files nb.
Proof.
  revert nb. induction hs as [|h hs IH]; intros nb; [done|].
  simpl. by destruct (IH (removed nb h)) as [-> ->].
Qed.
End Capture.

Section CaptureCell.
Context `{Framework}.
Variable names : gmap nat string.

Lemma foldl_keep {A B : Type} (l : list A) (s : B) : foldl (λ s _, s) s l = s.
Proof. by induction l. Qed.

(** The cell, when the forward pass of the model returns. *)
Lemma capture_cell_runs (modules : list NNModule) (run : ForwardRun) (out : FTensor)
    (nb0 : Notebook) :
  forward_hooks nb0 = ∅ → run_result run = inr out →
  ∃ nb' : Notebook,
    runs_to (capture_cell names modules run) nb0 nb' ()
    ∧ intermediary_results nb' = captured names modules (run_calls run)
    ∧ (∀ m, hooks_of nb' m = [])
    ∧ files nb' = files nb0.
Proof.
  intros Hh0 Hout.
  set (s1 := set_intermediary_results (λ _, ∅) nb0).
  set (s2 := set_cb_handles (λ _, []) s1).
  set (s3 := foldl (registered names) s2 modules).
  set (s4 := foldl (fired names) s3 (run_calls run)).
  set (s5 := foldl removed s4 (cb_handles s4)).
  destruct (registered_all names modules s2) as (R1 & R2 & R3 & R4); [done..|].
  fold s3 in R1, R2, R3, R4.
  destruct (fired_all names modules (run_calls run) s3 R1) as (F1 & F2 & F3 & F4).
  fold s4 in F1, F2, F3, F4.
  destruct (removed_frame (cb_handles s4) s4) as [V1 V2]. fold s5 in V1, V2.
  exists s5. split; [|split; [|split]].
  - unfold capture_cell. do 2 run_step.
    eapply runs_to_bind.
    { apply (runs_to_for_each (λ _, True) (register_forward_hook names)
               (registered names) modules s2 I).
      intros x s _. split; [apply register_runs | done]. }
    eapply runs_to_bind.
    { unfold model_call. eapply runs_to_bind.
      - apply (runs_to_for_each
                 (λ s, ∀ m, hooks_of s m ≠ [] → is_Some (names !! m))
                 (fire_hooks names) (fired names) (run_calls run) s3).
        + intros m Hm. apply R1 in Hm. by destruct Hm.
        + intros mo s Hs. split; [by apply fire_hooks_runs|].
          intros m. by rewrite hooks_of_fired; apply Hs.
      - rewrite Hout. apply runs_to_call. }
    run_step.
    eapply runs_to_bind.
    { apply (runs_to_for_each (λ _, True) handle_remove removed (cb_handles s4) s4 I).
      intros h s _. split; [apply removed_runs | done]. }
    run_step. apply runs_to_print.
  - rewrite V1, F4, R3. done.
  - intros m. destruct (hooks_of s5 m) as [|kh hs] eqn:Hhs; [done|]. exfalso.
    assert (Hin : kh ∈ hooks_of s5 m) by (rewrite Hhs; left).
    apply removed_all in Hin as [Hin Hnot]. apply Hnot.
    rewrite F2. apply R2. unfold hooks_of in *. by rewrite <- F1.
  - rewrite V2, F3, R4. done.
Qed.

(** A forward pass of a model that carries no hook leaves the store
    as it is, whether it returns or raises. *)
Lemma model_call_without_hooks (names' : gmap nat string) (run' : ForwardRun)
    (nb : Notebook) (log : list Event) :
  (∀ m, hooks_of nb m = []) →
  (model_call names' run' (nb, log)).1.1 = nb.
Proof.
  intros Hnone. unfold model_call. rewrite M_bind_unfold.
  destruct (runs_to_for_each (λ s, s = nb) (fire_hooks names') (λ s _, s)
              (run_calls run') nb eq_refl) as [Hrun _].
  { intros mo s ->. split; [|done].
    replace nb with (fired names' nb mo) at 2.
    - apply fire_hooks_runs. intros m Hm. by rewrite Hnone in Hm.
    - unfold fired. by rewrite Hnone. }
  rewrite foldl_keep in Hrun. destruct (Hrun log) as [log' ->].
  unfold call. done.
Qed.

(** The keys of the captured dictionary. *)
Lemma captured_dom (modules : list NNModule) (calls : list (NNModule * FTensor))
    (name : string) :
  name ∈ dom (captured names modules calls)
  ↔ ∃ m o, (m, o) ∈ calls ∧ m ∈ modules ∧ names !! m = Some name.
Proof.
  unfold captured.
  induction calls as [|[m o] calls IH] using rev_ind.
  - simpl. rewrite dom_empty_L. split; [by intros ?%not_elem_of_empty|].
    intros (m & o & Hin & _). by apply elem_of_nil in Hin.
  - rewrite foldl_app. simpl.
    assert (Hsplit : (∃ m' o', (m', o') ∈ calls ++ [(m, o)] ∧ m' ∈ modules
                               ∧ names !! m' = Some name)
                     ↔ (∃ m' o', (m', o') ∈ calls ∧ m' ∈ modules
                                 ∧ names !! m' = Some name)
                       ∨ (m ∈ modules ∧ names !! m = Some name)).
    { split.
      - intros (m' & o' & Hin & Hm & Hn). apply elem_of_app in Hin as [Hin|Hin].
        + left. by exists m', o'.
        + apply list_elem_of_singleton in Hin. injection Hin as -> ->. by right.
      - intros [(m' & o' & Hin & Hm & Hn)|[Hm Hn]].
        + exists m', o'. split; [|done]. apply elem_of_app. by left.
        + exists m, o. split; [|done]. apply elem_of_app. right.
          by apply list_elem_of_singleton. }
    rewrite Hsplit, <- IH.
    destruct (names !! m) as [name'|] eqn:Hm.
    + case_decide as Hin.
      * rewrite dom_insert_L, elem_of_union, elem_of_singleton.
        split; [intros [->|?]; [by right | by left]|].
        intros [?|[_ [= ->]]]; [by right | by left].
      * split; [by left|]. by intros [?|[? _]].
    + split; [by left|]. by intros [?|[_ ?]].
Qed.

(** The value stored under a name: the output of the last hooked
    module of that name to complete. *)
Lemma captured_latest (modules : list NNModule) (before after : list (NNModule * FTensor))
    (m : NNModule) (o : FTensor) (name : string) :
  m ∈ modules → names !! m = Some name →
  (∀ m' o', (m', o') ∈ after → m' ∈ modules → names !! m' ≠ Some name) →
  captured names modules (before ++ (m, o) :: after) !! name = Some (to_numpy o).
Proof.
  intros Hm Hname. unfold captured. rewrite foldl_app. simpl.
  rewrite Hname, decide_True by done.
  match goal with
  | |- context [foldl ?f ∅ before] => generalize (foldl f ∅ before)
  end.
  intros d. assert (Hd : <[name := to_numpy o]> d !! name = Some (to_numpy o))
    by apply lookup_insert_eq.
  revert Hd. generalize (<[name := to_numpy o]> d). clear d.
  induction after as [|[m' o'] after IH]; intros d Hd Hafter; [done|].
  simpl. apply IH.
  - destruct (names !! m') as [name'|] eqn:Hm'; [|done].
    case_decide as Hin; [|done].
    rewrite lookup_insert_ne; [done|]. intros ->.
    apply (Hafter m' o'); [left | done | done].
  - intros m'' o'' Hin. apply (Hafter m'' o''). by right.
Qed.

(** With distinct names, the dictionary has one entry per hooked
    module that ran. *)
Lemma captured_size (modules : list NNModule) (calls : list (NNModule * FTensor)) :
  (∀ m1 m2 name, names !! m1 = Some name → names !! m2 = Some name → m1 = m2) →
  size (captured names modules calls)
  = length (remove_dups (filter (hooked names modules) calls.*1)).
Proof.
  intros Hinj.
  set (ran := remove_dups (filter (hooked names modules) calls.*1)).
  assert (Hran : ∀ m, m ∈ ran ↔ hooked names modules m ∧ ∃ o, (m, o) ∈ calls).
  { intros m. unfold ran. rewrite elem_of_remove_dups, list_elem_of_filter.
    rewrite list_elem_of_fmap. split.
    - intros [Hm ([m' o] & -> & Hin)]. split; [done|]. by exists o.
    - intros [Hm [o Hin]]. split; [done|]. by exists (m, o). }
  set (name_of := λ m : NNModule, default "" (names !! m)).
  assert (Hdom : dom (captured names modules calls)
                 = list_to_set (C := gset string) (name_of <$> ran)).
  { apply set_eq. intros name.
    rewrite captured_dom, elem_of_list_to_set, list_elem_of_fmap. split.
    - intros (m & o & Hin & Hm & Hname). exists m. split.
      + unfold name_of. by rewrite Hname.
      + apply Hran. split; [|by exists o]. split; [done | by rewrite Hname].
    - intros (m & -> & Hm). apply Hran in Hm as [[Hm [name Hname]] [o Hin]].
      exists m, o. unfold name_of. by rewrite Hname. }
  rewrite <- size_dom, Hdom, size_list_to_set, length_fmap; [done|].
  apply NoDup_fmap_2_strong; [|apply NoDup_remove_dups].
  intros m1 m2 Hm1 Hm2. apply Hran in Hm1 as [[_ [n1 Hn1]] _].
  apply Hran in Hm2 as [[_ [n2 Hn2]] _].
  unfold name_of. rewrite Hn1, Hn2. simpl. intros ->. by apply (Hinj m1 m2 n2).
Qed.
End CaptureCell.

Section FeatureMaps.
Context `{Framework}.

End FeatureMaps.

(** The toy run: hooks on conv1 and relu, relu runs twice. *)
Example capture_cell_toy :
  let res := @capture_cell toy toy_names toy_modules toy_run (@fresh_notebook toy ∅, []) in
  res.2 = inr ()
  ∧ intermediary_results res.1.1 = {[ "conv1" := [1]; "relu" := [3] ]}
  ∧ forward_hooks res.1.1 = {[ 0%nat := []; 1%nat := [] ]}
  ∧ cb_handles res.1.1 = [mkHandle 0 0; mkHandle 1 1].
Proof. repeat split; vm_compute; reflexivity. Qed.


Example load_cell_toy :
  let σ1 := (@capture_cell toy toy_names toy_modules toy_run (@fresh_notebook toy ∅, [])).1 in
  let σ2 := (@dump_cell toy σ1).1 in
  let res := @load_cell toy σ2 in
  res.2 = inr ()
  ∧ intermediary_results_from_file res.1.1 = {[ "conv1" := [1]; "relu" := [3] ]}.
Proof. repeat split; vm_compute; reflexivity. Qed.

(** ** No cell installs a handler *)

Section NoHandlers.
Context `{Framework}.

Lemma propagates_register (names : gmap nat string) (m : NNModule) :
  propagates (register_forward_hook names m).
Proof.
  unfold register_forward_hook, module_register_forward_hook.
  destruct (names !! m); propagate.
Qed.

Lemma propagates_save_conv_output (names : gmap nat string) (m : NNModule) (o : FTensor) :
  propagates (save_conv_output names m o).
Proof. unfold save_conv_output. propagate. Qed.

Lemma propagates_model_call (names : gmap nat string) (run : ForwardRun) :
  propagates (model_call names run).
Proof.
  unfold model_call, fire_hooks. propagate.
  match goal with kh : nat * Hook |- _ => destruct kh as [k []] end.
  apply propagates_save_conv_output.
Qed.

Lemma propagates_capture_cell (names : gmap nat string) (modules : list NNModule)
    (run : ForwardRun) :
  propagates (capture_cell names modules run).
Proof.
  unfold capture_cell, apply, handle_remove.
  apply propagates_bind; [propagate | intros _].
  apply propagates_bind; [propagate | intros _].
  apply propagates_bind;
    [apply propagates_for_each; intros m; apply propagates_register | intros _].
  apply propagates_bind; [apply propagates_model_call | intros predictions].
  propagate.
Qed.

Lemma propagates_dump_cell : propagates dump_cell.
Proof. unfold dump_cell. propagate. Qed.

Lemma propagates_load_cell : propagates load_cell.
Proof. unfold load_cell. propagate. Qed.

End NoHandlers.

(** A forward pass that raises: evaluate ends with the same exception
    right after the call, and the capture cell ends with it while the
    hooks stay registered. *)
Example evaluate_raises :
  @evaluate toy () 5 failing_model toy_data ((), [])
  = (((), [EvCall CallInitHidden None; EvCall CallSize None;
           EvCall (CallGetBatch 0) None;
           EvCall CallForward (Some (LibraryError 7))]),
     inl (LibraryError 7)).
Proof. reflexivity. Qed.

Example capture_cell_raises :
  let res := @capture_cell toy toy_names toy_modules failing_run
               (@fresh_notebook toy ∅, []) in
  res.2 = inl (LibraryError 9)
  ∧ cb_handles res.1.1 = [mkHandle 0 0; mkHandle 1 1]
  ∧ hooks_of res.1.1 0%nat = [(0%nat, save_conv_output_hook)].
Proof. repeat split; vm_compute; reflexivity. Qed.

(** ** The cells of the notebooks *)

(** Cell 3 of quantize_lstm calls batchify three times. *)
Lemma batchify_invoked_three_times :
  ¬ (∀ nb cell step,
       nb ∈ notebooks → cell ∈ nb → (invocations step cell ≤ 1)%nat).
Proof.
  intros Honce.
  specialize (Honce quantize_lstm
                [StDefine "batchify"; StAssign "device"; StAssign "batch_size";
                 StAssign "eval_batch_size"; StBatchify "train_data";
                 StBatchify "val_data"; StBatchify "test_data"]
                StepBatchify).
  assert (Hthree : (3 ≤ 1)%nat); [|lia].
  apply Honce.
  - unfold notebooks. left.
  - unfold quantize_lstm. right. right. left.
Qed.

(** C5, as the cells are written.  A cell invokes evaluate at most
    once, batchify at most three times (cell 3 of quantize_lstm does)
    and the model's forward pass directly at most twice (cell 7 does);
    and one call of evaluate, on a data source of any layout, runs the
    model once for every start index of range(0, rows, 35):
    ceil(rows / 35) forward passes when it returns, no more when it
    raises. *)
Theorem cells_invoke_steps :
  Forall (Forall (λ cell,
                    (invocations StepEvaluate cell ≤ 1)%nat
                    ∧ (invocations StepBatchify cell ≤ 3)%nat
                    ∧ (invocations StepForward cell ≤ 2)%nat)) notebooks
  ∧ invocations StepBatchify <$> quantize_lstm !! 2%nat = Some 3%nat
  ∧ invocations StepForward <$> quantize_lstm !! 6%nat = Some 2%nat
  ∧ (∀ (F : Framework) (S : Type) (ntokens : Z) (model : RNN) (n : nat)
       (rest : list nat) (values : list Z) (layout : list nat) (σ : S * list Event),
       let res := evaluate ntokens model (mkStrided (n :: rest) values layout) σ in
       let batches := Z.to_nat ((Z.of_nat n + 34) / 35) in
       match res.2 with
       | inr _ => forward_calls res.1.2 = (forward_calls σ.2 + batches)%nat
       | inl _ => (forward_calls res.1.2 ≤ forward_calls σ.2 + batches)%nat
       end).
Proof.
  split; [|split; [done|split; [done|]]].
  - unfold notebooks, quantize_lstm, save_intermediate_feature_maps, parameter_histograms.
    repeat (apply Forall_cons; split); try apply Forall_nil; vm_compute; lia.
  - intros F S ntokens model n rest values layout σ. apply evaluate_forward_calls.
Qed.

(** The validation data of the toy run has 72 rows: three forward passes. *)
Example evaluate_three_batches :
  forward_calls (@evaluate toy () 5 toy_model toy_data ((), [])).1.2 = 3%nat.
Proof. reflexivity. Qed.

(** The feature-map notebook loads the pretrained model (cell 2)
    before the image (cell 3). *)
Lemma model_loaded_before_image :
  save_intermediate_feature_maps ∈ notebooks
  ∧ take 4 (stages save_intermediate_feature_maps)
    = [LoadPretrained; LoadPretrained; LoadPretrained; LoadData]
  ∧ in_chain_order (stages save_intermediate_feature_maps) = false.
Proof.
  split; [|split; reflexivity].
  unfold notebooks. right. left.
Qed.

(** C6, as the cells are ordered.  In quantize_lstm the stages first
    occur in the order of the chain, all eight of them; the order is
    broken only where the converted model is loaded again (cells 9 and
    10) and where a new quantizer starts the next round.  In
    save_intermediate_feature_maps the pretrained model is loaded
    before the image, which is the only break; forward passes and the
    collection follow.  The histogram notebook loads the model and
    plots. *)
Theorem stages_in_order :
  first_occurrences [] (stages quantize_lstm)
    = [LoadData; LoadPretrained; ConvertLayer; RunForward; Collect;
       Quantize; Reevaluate; Compare]
  ∧ order_breaks (stages quantize_lstm)
    = [(RunForward, LoadPretrained); (Collect, LoadPretrained);
       (Compare, Quantize); (Compare, Quantize); (Compare, Quantize);
       (Compare, Quantize); (Compare, Quantize)]
  ∧ first_occurrences [] (stages save_intermediate_feature_maps)
    = [LoadPretrained; LoadData; RunForward; Collect]
  ∧ order_breaks (stages save_intermediate_feature_maps) = [(LoadPretrained, LoadData)]
  ∧ stages parameter_histograms = [LoadPretrained; Collect]
  ∧ (∀ l, in_chain_order l = true ↔ order_breaks l = []).
Proof.
  repeat (split; [reflexivity|]).
  intros l. induction l as [|s [|s' l] IH]; [done..|].
  change (in_chain_order (s :: s' :: l))
    with (bool_decide (rank s ≤ rank s')%nat && in_chain_order (s' :: l)).
  change (order_breaks (s :: s' :: l))
    with (if decide (rank s' < rank s)%nat then (s, s') :: order_breaks (s' :: l)
          else order_breaks (s' :: l)).
  rewrite andb_true_iff, bool_decide_eq_true, IH.
  case_decide as Hlt.
  - split; [intros [Hle _]; lia | done].
  - split; [by intros [_ ?] | intros ?; split; [lia | done]].
Qed.

(** ** The batches of evaluate *)

Section Batches.
Context `{Framework}.

Lemma py_range_nil (s n : Z) : n ≤ s → py_range s n sequence_len = [].
Proof.
  intros Hs. unfold py_range, sequence_len. case_decide; [|done].
  replace (Z.to_nat ((n - s + 35 - 1) / 35)) with 0%nat; [done|].
  assert ((n - s + 35 - 1) / 35 < 1); [|lia].
  apply Z.div_lt_upper_bound; lia.
Qed.

Lemma py_range_cons (s n : Z) :
  s < n → py_range s n sequence_len = s :: py_range (s + sequence_len) n sequence_len.
Proof.
  intros Hs. unfold py_range, sequence_len. case_decide; [|lia].
  assert (Hq : (n - s + 35 - 1) / 35 = (n - (s + 35) + 35 - 1) / 35 + 1).
  { replace (n - s + 35 - 1) with ((n - (s + 35) + 35 - 1) + 1 * 35) by lia.
    by rewrite Z.div_add. }
  assert (Hpos : 0 ≤ (n - (s + 35) + 35 - 1) / 35) by (apply Z.div_pos; lia).
  rewrite Hq, Z2Nat.inj_add, Nat.add_comm by lia. simpl.
  f_equal; [lia|]. rewrite <- fmap_S_seq, <- list_fmap_compose.
  apply list_fmap_ext. intros _ k _. simpl. lia.
Qed.

Lemma py_range_in (n i : Z) : i ∈ py_range 0 n sequence_len → 0 ≤ i ≤ n - 1.
Proof.
  unfold py_range, sequence_len. case_decide; [|by intros ?%elem_of_nil].
  intros (k & -> & Hk)%list_elem_of_fmap. apply elem_of_seq in Hk.
  assert (Hlt : Z.of_nat k < (n - 0 + 35 - 1) / 35) by lia.
  pose proof (Z.mul_div_le (n - 0 + 35 - 1) 35 ltac:(lia)). lia.
Qed.

(** The rows of the batches add up to one less than the rows of the
    source. *)
Lemma batch_rows_sum (c : nat) (s n : Z) :
  0 ≤ s ≤ n - 1 → Z.to_nat ((n - s + 35 - 1) / 35) = c →
  sum_Z (batch_rows n <$> py_range s n sequence_len) = n - 1 - s.
Proof.
  revert s. induction c as [|c IH]; intros s Hs Hc.
  - exfalso. assert (1 ≤ (n - s + 35 - 1) / 35); [|lia].
    apply Z.div_le_lower_bound; lia.
  - rewrite py_range_cons by lia. simpl.
    destruct (decide (s + sequence_len ≤ n - 1)) as [Hnext|Hlast].
    + rewrite IH.
      * unfold batch_rows, sequence_len in *. lia.
      * unfold sequence_len in *. lia.
      * unfold sequence_len.
        replace (n - s + 35 - 1) with ((n - (s + 35) + 35 - 1) + 1 * 35) in Hc by lia.
        rewrite Z.div_add in Hc by lia.
        assert (0 ≤ (n - (s + 35) + 35 - 1) / 35)
          by (apply Z.div_pos; unfold sequence_len in *; lia).
        lia.
    + rewrite py_range_nil by lia. simpl.
      unfold batch_rows, sequence_len in *. lia.
Qed.

Lemma py_range_lookup (n : Z) (j : nat) :
  (j < Z.to_nat ((n + 34) / 35))%nat →
  py_range 0 n sequence_len !! j = Some (35 * Z.of_nat j).
Proof.
  intros Hj. unfold py_range, sequence_len. case_decide; [|lia].
  rewrite list_lookup_fmap, lookup_seq_lt.
  - simpl. f_equal. lia.
  - replace (n - 0 + 35 - 1) with (n + 34) by lia. done.
Qed.

Lemma mapM_cons_err {A B : Type} (f : A → Err B) (x : A) (l : list A) :
  mapM f (x :: l) = y ← f x; k ← mapM f l; mret (y :: k).
Proof. reflexivity. Qed.

Lemma mapM_inr {A B : Type} (f : A → Err B) (l : list A) (l' : list B) :
  mapM f l = inr l' → Forall2 (λ x y, f x = inr y) l l'.
Proof.
  revert l'. induction l as [|x l IH]; intros l'.
  - intros [= <-]. constructor.
  - rewrite mapM_cons_err. destruct (f x) as [e|y] eqn:Hx; [done|]. simpl.
    destruct (mapM f l) as [e|k]; [done|]. simpl. intros [= <-].
    constructor; [done|by apply IH].
Qed.

Lemma mapM_returns {A B : Type} (f : A → Err B) (l : list A) :
  (∀ x, x ∈ l → ∃ y, f x = inr y) → ∃ l', mapM f l = inr l'.
Proof.
  induction l as [|x l IH]; intros Hall; [by eexists|].
  rewrite mapM_cons_err. destruct (Hall x) as [y ->]; [left|].
  destruct IH as [k ->]; [intros x' Hx'; apply Hall; by right|].
  by eexists.
Qed.

(** On a contiguous source every get_batch of the loop returns. *)
Lemma evaluate_batches_returns (source : Tensor) (n : nat) (rest : list nat) :
  shape source = n :: rest → well_formed source → is_contiguous source = true →
  ∃ batches : list (Tensor * Tensor),
    evaluate_batches source = inr batches
    ∧ Forall2 (λ i b, get_batch source i = inr b)
              (py_range 0 (Z.of_nat n) sequence_len) batches.
Proof.
  intros Hsh Hwf Hc. unfold evaluate_batches, size0. rewrite Hsh. simpl.
  destruct (mapM_returns (get_batch source) (py_range 0 (Z.of_nat n) sequence_len))
    as [batches Hb].
  - intros i Hi. apply py_range_in in Hi.
    destruct (get_batch_contiguous source n rest i Hsh Hwf Hc ltac:(lia)) as [st ->].
    by eexists.
  - exists batches. split; [done|]. by apply mapM_inr.
Qed.

(** The batch that get_batch returns at index 35 j, on a source of
    any layout. *)
Lemma get_batch_shifted (source : Tensor) (n : nat) (rest : list nat) (j : nat)
    (b : Tensor * Tensor) :
  shape source = n :: rest → well_formed source →
  get_batch source (35 * Z.of_nat j) = inr b →
  shifted_batch source n rest j b.
Proof.
  intros Hsh Hwf Hget.
  destruct (get_batch_outcome source n rest (35 * Z.of_nat j) b Hsh Hwf ltac:(lia) Hget)
    as [st ->].
  unfold shifted_batch. simpl.
  rewrite (row_size_size_of source n rest Hsh).
  replace (Z.to_nat (batch_rows (Z.of_nat n) (35 * Z.of_nat j)))
    with (35 `min` (n - 1 - 35 * j))%nat
    by (unfold batch_rows, sequence_len; lia).
  replace (Z.to_nat (35 * Z.of_nat j)) with (35 * j)%nat by lia.
  replace (Z.to_nat (35 * Z.of_nat j + 1)) with (35 * j + 1)%nat by lia.
  done.
Qed.

(** When the loop of evaluate completes, every get_batch has
    returned. *)
Lemma batch_losses_batches (model : RNN) (ntokens : Z) (source : Tensor)
    (starts : list Z) (hidden : Hidden) (l : list (Z * Float)) :
  batch_losses model ntokens source hidden starts = inr l →
  ∃ batches : list (Tensor * Tensor),
    Forall2 (λ i b, get_batch source i = inr b) starts batches.
Proof.
  revert hidden l. induction starts as [|i starts IH]; intros hidden l.
  - intros _. exists []. constructor.
  - simpl. destruct (get_batch source i) as [e|[data targets]] eqn:Hget; [done|]. simpl.
    destruct (forward model false data hidden) as [e|[output hidden']]; [done|]. simpl.
    destruct (view_tokens output ntokens) as [e|output_flat]; [done|]. simpl.
    destruct (len data) as [e|rows]; [done|]. simpl.
    destruct (criterion output_flat targets) as [e|loss]; [done|]. simpl.
    destruct (batch_losses model ntokens source (repackage_hidden hidden') starts)
      as [e|l'] eqn:Hrest; [done|].
    intros _. destruct (IH _ _ Hrest) as [batches Hall].
    exists ((data, targets) :: batches). by constructor.
Qed.

(** The batches of a source, once every get_batch of the loop has
    returned. *)
Lemma batches_shifted (source : Tensor) (n : nat) (rest : list nat)
    (batches : list (Tensor * Tensor)) :
  shape source = n :: rest → well_formed source →
  Forall2 (λ i b, get_batch source i = inr b)
          (py_range 0 (Z.of_nat n) sequence_len) batches →
  length batches = Z.to_nat ((Z.of_nat n + 34) / 35)
  ∧ ∀ j b, batches !! j = Some b →
           get_batch source (35 * Z.of_nat j) = inr b
           ∧ shifted_batch source n rest j b.
Proof.
  intros Hsh Hwf Hall.
  assert (Hlen : length batches = Z.to_nat ((Z.of_nat n + 34) / 35)).
  { rewrite <- (Forall2_length _ _ _ Hall). apply py_range_length. }
  split; [done|]. intros j b Hjb.
  destruct (Forall2_lookup_r _ _ _ _ _ Hall Hjb) as (i & Hi & Hget).
  rewrite py_range_lookup in Hi
    by (rewrite <- Hlen; by apply lookup_lt_Some in Hjb).
  injection Hi as <-. split; [done|]. by apply (get_batch_shifted source n rest).
Qed.

(** With the batches at hand, the losses of evaluate are those of the
    specification. *)
Lemma batch_losses_losses_of (model : RNN) (ntokens : Z) (source : Tensor)
    (starts : list Z) (batches : list (Tensor * Tensor)) (hidden : Hidden) :
  Forall2 (λ i b, get_batch source i = inr b) starts batches →
  Forall (λ b : Tensor * Tensor, shape b.1 ≠ []) batches →
  batch_losses model ntokens source hidden starts
  = losses_of model ntokens hidden batches.
Proof.
  intros Hall. revert hidden.
  induction Hall as [|i [data targets] starts batches Hi _ IH]; intros hidden Hsh; [done|].
  apply Forall_cons in Hsh as [Hd Hsh]. simpl in *. rewrite Hi. simpl.
  destruct (forward model false data hidden) as [e|[output hidden']]; [done|]. simpl.
  destruct (view_tokens output ntokens) as [e|output_flat]; [done|]. simpl.
  unfold len, row_count. destruct (shape data) as [|k sh]; [done|]. simpl.
  destruct (criterion output_flat targets) as [e|loss]; [done|]. simpl.
  by rewrite IH.
Qed.

(** evaluate against the average loss of the specification. *)
Lemma evaluate_mean_loss {S : Type} (ntokens : Z) (model : RNN) (source : Tensor)
    (n : nat) (rest : list nat) (batches : list (Tensor * Tensor)) (σ : S * list Event) :
  shape source = n :: rest →
  Forall2 (λ i b, get_batch source i = inr b)
          (py_range 0 (Z.of_nat n) sequence_len) batches →
  Forall (λ b : Tensor * Tensor, shape b.1 ≠ []) batches →
  (evaluate ntokens model source σ).2 = mean_loss model ntokens batches (Z.of_nat n).
Proof.
  intros Hsh Hall Hd. rewrite evaluate_result. unfold average_loss, mean_loss, size0.
  rewrite Hsh. destruct (init_hidden model eval_batch_size) as [e|hidden]; [done|].
  simpl. rewrite (batch_losses_losses_of model ntokens source _ batches) by done.
  destruct (losses_of model ntokens hidden batches) as [e|l]; [done|].
  simpl. unfold truediv. by case_decide.
Qed.

(** The batches of evaluate on a contiguous source: they are the
    shifted batches of the specification, and evaluate computes their
    mean loss, whatever the model. *)
Lemma evaluate_over_batches (source : Tensor) (n : nat) (rest : list nat) :
  shape source = n :: rest → well_formed source → is_contiguous source = true →
  ∃ batches : list (Tensor * Tensor),
    evaluate_batches source = inr batches
    ∧ length batches = Z.to_nat ((Z.of_nat n + 34) / 35)
    ∧ (∀ j b, batches !! j = Some b →
              get_batch source (35 * Z.of_nat j) = inr b
              ∧ shifted_batch source n rest j b)
    ∧ (∀ (S : Type) (model : RNN) (ntokens : Z) (σ : S * list Event),
         (evaluate ntokens model source σ).2
         = mean_loss model ntokens batches (Z.of_nat n)).
Proof.
  intros Hsh Hwf Hc.
  destruct (evaluate_batches_returns source n rest Hsh Hwf Hc) as (batches & Hb & Hall).
  destruct (batches_shifted source n rest batches Hsh Hwf Hall) as [Hlen Hj].
  exists batches. split; [done|]. split; [done|]. split; [done|].
  intros S model ntokens σ. apply (evaluate_mean_loss ntokens model source n rest); [done..|].
  apply Forall_lookup. intros j b Hjb. destruct (Hj j b Hjb) as [_ (Hd & _)].
  by rewrite Hd.
Qed.

(** Whenever evaluate returns a loss, on a source of any layout, it is
    the mean loss of the shifted batches. *)
Lemma evaluate_returns_mean_loss {S : Type} (ntokens : Z) (model : RNN) (source : Tensor)
    (σ : S * list Event) (val_loss : Float) :
  well_formed source →
  (evaluate ntokens model source σ).2 = inr val_loss →
  ∃ (n : nat) (rest : list nat) (batches : list (Tensor * Tensor)),
    shape source = n :: rest
    ∧ length batches = Z.to_nat ((Z.of_nat n + 34) / 35)
    ∧ (∀ j b, batches !! j = Some b → shifted_batch source n rest j b)
    ∧ mean_loss model ntokens batches (Z.of_nat n) = inr val_loss.
Proof.
  intros Hwf Hret. pose proof Hret as Hav. rewrite evaluate_result in Hav.
  unfold average_loss, size0 in Hav.
  destruct (init_hidden model eval_batch_size) as [e|hidden]; [done|]. simpl in Hav.
  destruct (shape source) as [|n rest] eqn:Hsh; [done|]. simpl in Hav.
  destruct (batch_losses model ntokens source hidden
              (py_range 0 (Z.of_nat n) sequence_len)) as [e|l] eqn:Hl; [done|].
  destruct (batch_losses_batches _ _ _ _ _ _ Hl) as [batches Hall].
  destruct (batches_shifted source n rest batches Hsh Hwf Hall) as [Hlen Hj].
  exists n, rest, batches. split; [done|]. split; [done|].
  split; [intros j b Hjb; by apply Hj|].
  rewrite <- Hret. symmetry.
  apply (evaluate_mean_loss ntokens model source n rest); [done..|].
  apply Forall_lookup. intros j b Hjb. destruct (Hj j b Hjb) as [_ (Hd & _)].
  by rewrite Hd.
Qed.
End Batches.

(** ** The capture cell when the forward pass raises *)

Section CaptureRaises.
Context `{Framework}.

Lemma runs_to_then {S A B : Type} (m : M S A) (k : A → M S B) (s s1 : S) (a : A)
    (log : list Event) :
  runs_to m s s1 a → ∃ log', (m ≫= k) (s, log) = k a (s1, log').
Proof.
  intros Hm. destruct (Hm log) as [log' Hrun]. exists log'.
  by rewrite M_bind_unfold, Hrun.
Qed.

(** Without a handler there is no cleanup either: when the forward
    pass of the capture cell raises, the cell ends with that exception,
    the hooks registered so far stay on the modules, and the dictionary
    holds what the modules that completed have stored. *)
Theorem capture_cell_raise_keeps_hooks (names : gmap nat string) (modules : list NNModule)
    (run : ForwardRun) (e : PyErr) (nb0 : Notebook) (log : list Event) :
  forward_hooks nb0 = ∅ → run_result run = inl e →
  ∃ (nb' : Notebook) (log' : list Event),
    capture_cell names modules run (nb0, log) = ((nb', log'), inl e)
    ∧ (∀ m, hooks_of nb' m ≠ [] ↔ hooked names modules m)
    ∧ intermediary_results nb' = captured names modules (run_calls run).
Proof.
  intros Hh0 Hraise.
  set (s1 := set_intermediary_results (λ _, ∅) nb0).
  set (s2 := set_cb_handles (λ _, []) s1).
  set (s3 := foldl (registered names) s2 modules).
  set (s4 := foldl (fired names) s3 (run_calls run)).
  destruct (registered_all names modules s2) as (R1 & R2 & R3 & R4); [done..|].
  fold s3 in R1, R2, R3, R4.
  destruct (fired_all names modules (run_calls run) s3 R1) as (F1 & F2 & F3 & F4).
  fold s4 in F1, F2, F3, F4.
  unfold capture_cell.
  assert (Hreg : runs_to (apply modules (register_forward_hook names)) s2 s3 ()).
  { apply (runs_to_for_each (λ _, True) (register_forward_hook names)
             (registered names) modules s2 I).
    intros x s _. split; [apply register_runs | done]. }
  assert (Hfire : runs_to (for_each (fire_hooks names) (run_calls run)) s3 s4 ()).
  { apply (runs_to_for_each
             (λ s, ∀ m, hooks_of s m ≠ [] → is_Some (names !! m))
             (fire_hooks names) (fired names) (run_calls run) s3).
    - intros m Hm. apply R1 in Hm. by destruct Hm.
    - intros mo s Hs. split; [by apply fire_hooks_runs|].
      intros m. by rewrite hooks_of_fired; apply Hs. }
  match goal with
  | |- ∃ _ _, (?m ≫= ?k) (_, ?l) = _ ∧ _ =>
      destruct (runs_to_then m k nb0 s1 () l (runs_to_modify _ _)) as [log1 ->]
  end; cbv beta.
  match goal with
  | |- ∃ _ _, (?m ≫= ?k) (_, ?l) = _ ∧ _ =>
      destruct (runs_to_then m k s1 s2 () l (runs_to_modify _ _)) as [log2 ->]
  end; cbv beta.
  match goal with
  | |- ∃ _ _, (?m ≫= ?k) (_, ?l) = _ ∧ _ =>
      destruct (runs_to_then m k s2 s3 () l Hreg) as [log3 ->]
  end; cbv beta.
  rewrite M_bind_unfold. unfold model_call.
  match goal with
  | |- context [(?m ≫= ?k) (s3, ?l)] =>
      destruct (runs_to_then m k s3 s4 () l Hfire) as [log4 ->]
  end; cbv beta.
  rewrite Hraise. unfold call. simpl.
  eexists _, _. split; [done|]. split.
  - intros m. unfold hooks_of. rewrite F1. apply R1.
  - by rewrite F4, R3.
Qed.
End CaptureRaises.

Lemma capture_cell_raise_keeps_hooks_witness :
  ∃ (nb' : @Notebook toy) (log' : list (@Event toy)),
    @capture_cell toy toy_names toy_modules failing_run (@fresh_notebook toy ∅, [])
    = ((nb', log'), inl (LibraryError 9))
    ∧ (∀ m, @hooks_of toy nb' m ≠ [] ↔ hooked toy_names toy_modules m)
    ∧ @intermediary_results toy nb'
      = @captured toy toy_names toy_modules (@run_calls toy failing_run).
Proof.
  apply (@capture_cell_raise_keeps_hooks toy toy_names toy_modules failing_run
           (LibraryError 9) (@fresh_notebook toy ∅) []); reflexivity.
Defined.

(** ** evaluate and the average loss of the specification *)

Section AverageLoss.
Context `{Framework}.

(** C2.  Whenever evaluate returns a loss, it is the mean
    cross-entropy of each batch (the model's output on rows 35 j, ...
    of the data source against the rows one further on), weighted by
    the batch's row count, summed over the ceil(n / 35) batches in
    order and divided by the number n of rows; the cell prints that
    loss together with np.exp of it.  When a call raises, evaluate
    raises and nothing is printed.  On a contiguous data source, such
    as batchify returns, evaluate and the mean loss agree in every
    outcome, whatever the model. *)
Theorem perplexity_is_exp_of_average_loss {S : Type} (ntokens : Z) (model : RNN)
    (val_data : Tensor) (σ : S * list Event) :
  well_formed val_data →
  match (evaluate ntokens model val_data σ).2 with
  | inr val_loss =>
      (∃ (n : nat) (rest : list nat) (batches : list (Tensor * Tensor)),
         shape val_data = n :: rest
         ∧ length batches = Z.to_nat ((Z.of_nat n + 34) / 35)
         ∧ (∀ j b, batches !! j = Some b → shifted_batch val_data n rest j b)
         ∧ mean_loss model ntokens batches (Z.of_nat n) = inr val_loss)
      ∧ evaluate_and_print ntokens model val_data σ
        = (((evaluate ntokens model val_data σ).1.1,
            (evaluate ntokens model val_data σ).1.2
              ++ [EvPrintLoss val_loss (np_exp val_loss)]),
           inr ())
  | inl e =>
      evaluate_and_print ntokens model val_data σ
      = ((evaluate ntokens model val_data σ).1, inl e)
  end
  ∧ ∀ (n : nat) (rest : list nat),
      shape val_data = n :: rest → is_contiguous val_data = true →
      ∃ batches : list (Tensor * Tensor),
        length batches = Z.to_nat ((Z.of_nat n + 34) / 35)
        ∧ (∀ j b, batches !! j = Some b → shifted_batch val_data n rest j b)
        ∧ ∀ (S' : Type) (model' : RNN) (ntokens' : Z) (σ' : S' * list Event),
            (evaluate ntokens' model' val_data σ').2
            = mean_loss model' ntokens' batches (Z.of_nat n).
Proof.
  intros Hwf. split.
  - pose proof (evaluate_returns_mean_loss ntokens model val_data σ) as Hmean.
    unfold evaluate_and_print. rewrite M_bind_unfold.
    destruct (evaluate ntokens model val_data σ) as [σ1 [e|val_loss]]; simpl in *; [done|].
    split; [by apply Hmean|done].
  - intros n rest Hsh Hc.
    destruct (evaluate_over_batches val_data n rest Hsh Hwf Hc)
      as (batches & _ & Hlen & Hj & Hmean).
    exists batches. split; [done|]. split; [intros j b Hjb; by apply Hj|done].
Qed.

(** The rows of the first batches, put end to end. *)
Lemma shifted_batches_concat (source : Tensor) (n : nat) (rest : list nat)
    (batches : list (Tensor * Tensor)) :
  (∀ j b, batches !! j = Some b → shifted_batch source n rest j b) →
  let covered := ((35 * length batches) `min` (n - 1))%nat in
  mjoin ((λ b, elems b.1) <$> batches)
  = take (covered * size_of rest) (elems source)
  ∧ mjoin ((λ b, elems b.2) <$> batches)
    = take (covered * size_of rest) (drop (size_of rest) (elems source)).
Proof.
  induction batches as [|b batches IH] using rev_ind; intros Hall; [done|].
  destruct IH as [IHd IHt].
  { intros j b' Hj. apply Hall. by apply lookup_app_l_Some. }
  destruct (Hall (length batches) b) as (_ & Hd & _ & Ht).
  { rewrite lookup_app_r by lia. by rewrite Nat.sub_diag. }
  set (rs := size_of rest) in *. set (m := length batches) in *.
  assert (Hs1 : mjoin ((λ b0 : Tensor * Tensor, elems b0.1) <$> [b]) = elems b.1)
    by (simpl; apply app_nil_r).
  assert (Hs2 : mjoin ((λ b0 : Tensor * Tensor, elems b0.2) <$> [b]) = elems b.2)
    by (simpl; apply app_nil_r).
  rewrite !fmap_app, !join_app, length_app, Hs1, Hs2.
  change (length [b]) with 1%nat.
  rewrite IHd, IHt, Hd, Ht. fold m. cbv zeta.
  destruct (decide (35 * m ≤ n - 1)%nat) as [Hin|Hout].
  - replace ((35 * m) `min` (n - 1))%nat with (35 * m)%nat by lia.
    replace (((35 * m + 1) * rs))%nat with (rs + 35 * m * rs)%nat by lia.
    rewrite <- drop_drop, !take_take_drop. split; f_equal; nia.
  - replace (35 `min` (n - 1 - 35 * m))%nat with 0%nat by lia.
    rewrite Nat.mul_0_l, !take_0, !app_nil_r. split; f_equal; nia.
Qed.

(** The weights of the average.  The row counts that weight the
    per-batch losses of evaluate add up to n - 1 (the last row of the
    source is only ever a target), while the weighted sum is divided
    by n. *)
Theorem batch_weights_sum (source : Tensor) (n : nat) (rest : list nat) :
  shape source = n :: rest → well_formed source → is_contiguous source = true →
  (1 ≤ n)%nat →
  ∃ batches : list (Tensor * Tensor),
    (∀ (S : Type) (model : RNN) (ntokens : Z) (σ : S * list Event),
       (evaluate ntokens model source σ).2
       = mean_loss model ntokens batches (Z.of_nat n))
    ∧ sum_Z ((λ b, row_count b.1) <$> batches) = Z.of_nat n - 1.
Proof.
  intros Hsh Hwf Hc Hn.
  destruct (evaluate_over_batches source n rest Hsh Hwf Hc)
    as (batches & _ & Hlen & Hj & Hmean).
  exists batches. split; [done|].
  assert (Hrows : (λ b : Tensor * Tensor, row_count b.1) <$> batches
                  = batch_rows (Z.of_nat n) <$> py_range 0 (Z.of_nat n) sequence_len).
  { apply list_eq. intros j. rewrite !list_lookup_fmap.
    destruct (batches !! j) as [b|] eqn:Hjb.
    - rewrite py_range_lookup by (rewrite <- Hlen; by apply lookup_lt_Some in Hjb).
      destruct (Hj j b Hjb) as (_ & Hd & _). simpl. f_equal.
      unfold row_count. rewrite Hd.
      assert (Hin : 35 * Z.of_nat j ≤ Z.of_nat n - 1).
      { apply lookup_lt_Some in Hjb. rewrite Hlen in Hjb.
        assert (Hlt : Z.of_nat j < (Z.of_nat n + 34) / 35) by lia.
        pose proof (Z.mul_div_le (Z.of_nat n + 34) 35 ltac:(lia)). lia. }
      unfold batch_rows, sequence_len. lia.
    - apply lookup_ge_None in Hjb. rewrite lookup_ge_None_2; [done|].
      by rewrite py_range_length, <- Hlen. }
  rewrite Hrows.
  rewrite (batch_rows_sum (Z.to_nat ((Z.of_nat n - 0 + 35 - 1) / 35)) 0 (Z.of_nat n));
    [lia | lia | done].
Qed.

(** The last batch can be empty.  The loop of evaluate runs over
    range(0, n, 35): when n - 1 is a multiple of 35 its last index is
    n - 1, and the model is run on a last batch that has no row of
    data and no target. *)
Theorem last_batch_can_be_empty (source : Tensor) (n : nat) (rest : list nat) :
  shape source = n :: rest → well_formed source → is_contiguous source = true →
  (1 ≤ n)%nat → (Z.of_nat n - 1) `mod` 35 = 0 →
  ∃ (batches : list (Tensor * Tensor)) (b : Tensor * Tensor),
    (∀ (S : Type) (model : RNN) (ntokens : Z) (σ : S * list Event),
       (evaluate ntokens model source σ).2
       = mean_loss model ntokens batches (Z.of_nat n))
    ∧ last batches = Some b
    ∧ get_batch source (Z.of_nat n - 1) = inr b
    ∧ shape b.1 = 0%nat :: rest ∧ elems b.1 = []
    ∧ shape b.2 = [0%nat] ∧ elems b.2 = [].
Proof.
  intros Hsh Hwf Hc Hn Hmod.
  destruct (evaluate_over_batches source n rest Hsh Hwf Hc)
    as (batches & _ & Hlen & Hj & Hmean).
  pose proof (Z.div_mod (Z.of_nat n - 1) 35 ltac:(lia)) as Hdm.
  assert (Hq : 0 ≤ (Z.of_nat n - 1) / 35) by (apply Z.div_pos; lia).
  set (m := Z.to_nat ((Z.of_nat n - 1) / 35)).
  assert (Hm : Z.of_nat n - 1 = 35 * Z.of_nat m) by (unfold m; lia).
  assert (Hcount : length batches = S m).
  { rewrite Hlen. replace (Z.of_nat n + 34) with (Z.of_nat m * 35 + 1 * 35) by lia.
    rewrite Z.div_add by lia. rewrite Z.div_mul by lia. lia. }
  destruct (lookup_lt_is_Some_2 batches m) as [b Hb]; [lia|].
  exists batches, b. split; [done|].
  split; [by rewrite last_lookup, Hcount|].
  destruct (Hj m b Hb) as (Hget & Hd1 & Hd2 & Ht1 & Ht2).
  split; [by rewrite Hm|].
  replace (35 `min` (n - 1 - 35 * m))%nat with 0%nat in * by lia.
  done.
Qed.

(** The loop of evaluate reads every row once.  Over a source of
    n >= 1 rows the batches of evaluate, in order, have as data the
    rows 0 .. n - 2 and as targets the rows 1 .. n - 1: no row is
    skipped or repeated, the first row is never a target and the last
    never an input. *)
Theorem evaluate_batches_cover_rows (source : Tensor) (n : nat) (rest : list nat) :
  shape source = n :: rest → well_formed source → is_contiguous source = true →
  (1 ≤ n)%nat →
  ∃ batches : list (Tensor * Tensor),
    (∀ (S : Type) (model : RNN) (ntokens : Z) (σ : S * list Event),
       (evaluate ntokens model source σ).2
       = mean_loss model ntokens batches (Z.of_nat n))
    ∧ length batches = Z.to_nat ((Z.of_nat n + 34) / 35)
    ∧ mjoin ((λ b, elems b.1) <$> batches)
      = take ((n - 1) * row_size source) (elems source)
    ∧ mjoin ((λ b, elems b.2) <$> batches)
      = take ((n - 1) * row_size source) (drop (row_size source) (elems source)).
Proof.
  intros Hsh Hwf Hc Hn.
  destruct (evaluate_over_batches source n rest Hsh Hwf Hc)
    as (batches & _ & Hlen & Hj & Hmean).
  exists batches. split; [done|]. split; [done|].
  destruct (shifted_batches_concat source n rest batches) as [Hd Ht].
  { intros j b Hjb. by apply Hj. }
  rewrite (row_size_size_of source n rest Hsh), Hd, Ht.
  assert (Hcov : ((35 * length batches) `min` (n - 1) = n - 1)%nat).
  { rewrite Hlen.
    pose proof (Z.div_mod (Z.of_nat n + 34) 35 ltac:(lia)) as Hdm.
    pose proof (Z.mod_pos_bound (Z.of_nat n + 34) 35 ltac:(lia)) as Hmod.
    assert (0 ≤ (Z.of_nat n + 34) / 35) by (apply Z.div_pos; lia). lia. }
  by rewrite Hcov.
Qed.
End AverageLoss.

(** get_batch never raises on a contiguous tensor that has rows:
    Python's slices clamp.  At every index i >= 0, within the rows or
    past them, data and target have the same number of rows,
    min(35, n - 1 - i) when that is positive and none otherwise. *)
Theorem get_batch_any_index (source : Tensor) (n : nat) (rest : list nat) (i : Z) :
  shape source = n :: rest → well_formed source → is_contiguous source = true → 0 ≤ i →
  let k := Z.to_nat (batch_rows (Z.of_nat n) i) in
  ∃ data target : Tensor,
    get_batch source i = inr (data, target)
    ∧ shape data = k :: rest
    ∧ length (elems data) = (k * row_size source)%nat
    ∧ shape target = [(k * row_size source)%nat]
    ∧ length (elems target) = (k * row_size source)%nat
    ∧ (Z.of_nat n - 1 ≤ i → elems data = [] ∧ elems target = []).
Proof.
  intros Hsh Hwf Hc Hi k.
  assert (Hlen : length (elems source) = (n * row_size source)%nat).
  { unfold well_formed in Hwf. rewrite Hsh in Hwf. simpl in Hwf.
    unfold row_size. by rewrite Hsh. }
  destruct (get_batch_contiguous source n rest i Hsh Hwf Hc Hi) as [st ->].
  fold k. eexists _, _. split; [done|]. simpl.
  assert (Hk : k = 0%nat ∨ (Z.to_nat i + 1 + k ≤ n)%nat)
    by (unfold k, batch_rows, sequence_len; lia).
  split; [done|]. split.
  { rewrite length_take, length_drop, Hlen. destruct Hk as [->|Hk]; [done|nia]. }
  split; [done|]. split.
  { rewrite length_take, length_drop, Hlen. destruct Hk as [->|Hk]; [done|nia]. }
  intros Hlast. assert (k = 0%nat) as -> by (unfold k, batch_rows, sequence_len; lia).
  done.
Qed.

(** The validation data of the small instance: 72 rows, three batches
    of 35, 35 and 1 rows. *)
Lemma perplexity_is_exp_of_average_loss_witness :
  match (@evaluate toy () 5 toy_model toy_data ((), [])).2 with
  | inr val_loss =>
      (∃ (n : nat) (rest : list nat) (batches : list (Tensor * Tensor)),
         shape toy_data = n :: rest
         ∧ length batches = Z.to_nat ((Z.of_nat n + 34) / 35)
         ∧ (∀ j b, batches !! j = Some b → shifted_batch toy_data n rest j b)
         ∧ @mean_loss toy toy_model 5 batches (Z.of_nat n) = inr val_loss)
      ∧ @evaluate_and_print toy () 5 toy_model toy_data ((), [])
        = (((@evaluate toy () 5 toy_model toy_data ((), [])).1.1,
            (@evaluate toy () 5 toy_model toy_data ((), [])).1.2
              ++ [@EvPrintLoss toy val_loss (@np_exp toy val_loss)]),
           inr ())
  | inl e =>
      @evaluate_and_print toy () 5 toy_model toy_data ((), [])
      = ((@evaluate toy () 5 toy_model toy_data ((), [])).1, inl e)
  end
  ∧ ∀ (n : nat) (rest : list nat),
      shape toy_data = n :: rest → is_contiguous toy_data = true →
      ∃ batches : list (Tensor * Tensor),
        length batches = Z.to_nat ((Z.of_nat n + 34) / 35)
        ∧ (∀ j b, batches !! j = Some b → shifted_batch toy_data n rest j b)
        ∧ ∀ (S' : Type) (model' : @RNN toy) (ntokens' : Z) (σ' : S' * list (@Event toy)),
            (@evaluate toy S' ntokens' model' toy_data σ').2
            = @mean_loss toy model' ntokens' batches (Z.of_nat n).
Proof.
  apply (@perplexity_is_exp_of_average_loss toy () 5 toy_model toy_data ((), [])).
  reflexivity.
Defined.

Lemma batch_weights_sum_witness :
  ∃ batches : list (Tensor * Tensor),
    (∀ (S : Type) (model : @RNN toy) (ntokens : Z) (σ : S * list (@Event toy)),
       (@evaluate toy S ntokens model toy_data σ).2
       = @mean_loss toy model ntokens batches (Z.of_nat 72))
    ∧ sum_Z ((λ b, row_count b.1) <$> batches) = Z.of_nat 72 - 1.
Proof.
  apply (@batch_weights_sum toy toy_data 72 [1%nat]); [reflexivity..|lia].
Defined.

(** 36 rows: the second batch, at index 35, is empty. *)
Lemma last_batch_can_be_empty_witness :
  let source := mkTensor [36%nat; 1%nat] (Z.of_nat <$> seq 0 36) in
  ∃ (batches : list (Tensor * Tensor)) (b : Tensor * Tensor),
    (∀ (S : Type) (model : @RNN toy) (ntokens : Z) (σ : S * list (@Event toy)),
       (@evaluate toy S ntokens model source σ).2
       = @mean_loss toy model ntokens batches (Z.of_nat 36))
    ∧ last batches = Some b
    ∧ get_batch source (Z.of_nat 36 - 1) = inr b
    ∧ shape b.1 = 0%nat :: [1%nat] ∧ elems b.1 = []
    ∧ shape b.2 = [0%nat] ∧ elems b.2 = [].
Proof.
  apply (@last_batch_can_be_empty toy (mkTensor [36%nat; 1%nat] (Z.of_nat <$> seq 0 36))
           36 [1%nat]); [reflexivity..|lia|reflexivity].
Defined.

Lemma evaluate_batches_cover_rows_witness :
  ∃ batches : list (Tensor * Tensor),
    (∀ (S : Type) (model : @RNN toy) (ntokens : Z) (σ : S * list (@Event toy)),
       (@evaluate toy S ntokens model toy_data σ).2
       = @mean_loss toy model ntokens batches (Z.of_nat 72))
    ∧ length batches = Z.to_nat ((Z.of_nat 72 + 34) / 35)
    ∧ mjoin ((λ b, elems b.1) <$> batches)
      = take ((72 - 1) * row_size toy_data) (elems toy_data)
    ∧ mjoin ((λ b, elems b.2) <$> batches)
      = take ((72 - 1) * row_size toy_data) (drop (row_size toy_data) (elems toy_data)).
Proof.
  apply (@evaluate_batches_cover_rows toy toy_data 72 [1%nat]); [reflexivity..|lia].
Defined.

Lemma get_batch_any_index_witness :
  let source := mkTensor [4%nat; 2%nat] [1; 2; 3; 4; 5; 6; 7; 8] in
  let k := Z.to_nat (batch_rows (Z.of_nat 4) 9) in
  ∃ data target : Tensor,
    get_batch source 9 = inr (data, target)
    ∧ shape data = k :: [2%nat]
    ∧ length (elems data) = (k * row_size source)%nat
    ∧ shape target = [(k * row_size source)%nat]
    ∧ length (elems target) = (k * row_size source)%nat
    ∧ (Z.of_nat 4 - 1 ≤ 9 → elems data = [] ∧ elems target = []).
Proof.
  apply (get_batch_any_index (mkTensor [4%nat; 2%nat] [1; 2; 3; 4; 5; 6; 7; 8])
           4 [2%nat] 9); [reflexivity | reflexivity | reflexivity | lia].
Defined.

(** The validation data of the small instance: the losses of the
    three batches, the mean loss and what the cell prints. *)
Example mean_loss_toy :
  ∃ batches : list (Tensor * Tensor),
    evaluate_batches toy_data = inr batches
    ∧ @losses_of toy toy_model 5 (@HTuple toy []) batches
      = inr [(35, 70); (35, 70); (1, 2)]
    ∧ @mean_loss toy toy_model 5 batches 72 = inr 68
    ∧ last (@evaluate_and_print toy () 5 toy_model toy_data ((), [])).1.2
      = Some (@EvPrintLoss toy 68 (2 ^ 68)).
Proof. eexists. split; [reflexivity|]. repeat split; vm_compute; reflexivity. Qed.

(** ** batchify: what it refuses, and what get_batch makes of its result *)

(** The elements of the tensor batchify builds, by row and column. *)
Lemma batchified_lookup (data : Tensor) (n bsz r j : nat) :
  length (elems data) = n → (r < n / bsz)%nat → (j < bsz)%nat →
  (i ← seq 0 (n / bsz);
   (λ j, take (n / bsz * bsz) (elems data) !!! (j * (n / bsz) + i)%nat) <$> seq 0 bsz)
    !! (r * bsz + j)%nat
  = elems data !! (j * (n / bsz) + r)%nat
  ∧ is_Some (elems data !! (j * (n / bsz) + r)%nat).
Proof.
  intros Hlen Hr Hj.
  pose proof (Nat.Div0.mul_div_le n bsz) as Hle.
  assert (Hin : (j * (n / bsz) + r < n / bsz * bsz)%nat) by nia.
  rewrite (grid_lookup _ bsz (n / bsz) 0 r j) by done. simpl.
  rewrite lookup_total_take_lt by done.
  destruct (elems data !! (j * (n / bsz) + r)%nat) as [x|] eqn:Hx.
  - split; [|by eexists]. f_equal. by apply list_lookup_total_correct.
  - apply lookup_ge_None in Hx. lia.
Qed.

(** Targets are next tokens.  In a batch that get_batch takes from the
    batchified corpus, the entry at row k and column j is the token at
    position j * nbatch + i + k of the corpus, and its target is the
    token at the following position. *)
Theorem targets_are_next_tokens (data : Tensor) (n bsz : nat) (i : Z) :
  shape data = [n] → length (elems data) = n → (1 ≤ bsz)%nat →
  0 ≤ i ≤ Z.of_nat (n / bsz) - 2 →
  ∃ source batch target : Tensor,
    batchify data (Z.of_nat bsz) = inr source
    ∧ get_batch source i = inr (batch, target)
    ∧ ∀ k j : nat,
        (k < Z.to_nat (batch_rows (Z.of_nat (n / bsz)) i))%nat → (j < bsz)%nat →
        elems data !! (j * (n / bsz) + (Z.to_nat i + k))%nat = Some (get2 batch k j)
        ∧ elems data !! (j * (n / bsz) + (Z.to_nat i + k) + 1)%nat
          = Some (elems target !!! (k * bsz + j)%nat).
Proof.
  intros Hsh Hlen Hb Hi.
  rewrite (batchify_eval data n bsz Hsh Hlen Hb).
  match goal with
  | |- ∃ _ _ _, inr (mkTensor ?sh ?el) = _ ∧ _ =>
      destruct (get_batch_contiguous (mkTensor sh el) (n / bsz) [bsz] i) as [st Hget]
  end.
  { done. }
  { unfold well_formed. simpl. rewrite grid_length. lia. }
  { apply is_contiguous_mkTensor. }
  { lia. }
  eexists _, _, _. split; [done|]. rewrite Hget.
  split; [done|]. simpl.
  unfold row_size. simpl. rewrite Nat.mul_1_r.
  set (K := Z.to_nat (batch_rows (Z.of_nat (n / bsz)) i)).
  assert (HK : (Z.to_nat i + 1 + K ≤ n / bsz)%nat)
    by (unfold K, batch_rows, sequence_len; lia).
  intros k j Hk Hj. unfold get2. simpl. split.
  - destruct (batchified_lookup data n bsz (Z.to_nat i + k) j Hlen ltac:(lia) Hj)
      as [Heq [x Hx]].
    rewrite Hx. f_equal. symmetry. apply list_lookup_total_correct.
    rewrite lookup_take_lt by nia. rewrite lookup_drop.
    replace (Z.to_nat i * bsz + (k * bsz + j))%nat
      with ((Z.to_nat i + k) * bsz + j)%nat by lia.
    by rewrite Heq.
  - destruct (batchified_lookup data n bsz (Z.to_nat i + k + 1) j Hlen ltac:(lia) Hj)
      as [Heq [x Hx]].
    replace (j * (n / bsz) + (Z.to_nat i + k) + 1)%nat
      with (j * (n / bsz) + (Z.to_nat i + k + 1))%nat by lia.
    rewrite Hx. f_equal. symmetry. apply list_lookup_total_correct.
    rewrite lookup_take_lt by nia. rewrite lookup_drop.
    replace (Z.to_nat (i + 1) * bsz + (k * bsz + j))%nat
      with ((Z.to_nat i + k + 1) * bsz + j)%nat by lia.
    by rewrite Heq.
Qed.

(** Twelve tokens in three columns of four rows, from row 1. *)
Lemma targets_are_next_tokens_witness :
  let data := mkTensor [12%nat] (Z.of_nat <$> seq 100 12) in
  ∃ source batch target : Tensor,
    batchify data (Z.of_nat 3) = inr source
    ∧ get_batch source 1 = inr (batch, target)
    ∧ ∀ k j : nat,
        (k < Z.to_nat (batch_rows (Z.of_nat (12 / 3)) 1))%nat → (j < 3)%nat →
        elems data !! (j * (12 / 3) + (Z.to_nat 1 + k))%nat = Some (get2 batch k j)
        ∧ elems data !! (j * (12 / 3) + (Z.to_nat 1 + k) + 1)%nat
          = Some (elems target !!! (k * 3 + j)%nat).
Proof.
  apply (targets_are_next_tokens (mkTensor [12%nat] (Z.of_nat <$> seq 100 12)) 12 3 1);
    [reflexivity | reflexivity | lia | simpl; lia].
Defined.

Example batch_of_twelve_tokens :
  let data := mkTensor [12%nat] (Z.of_nat <$> seq 100 12) in
  (source ← batchify data 3; get_batch source 1)
  = inr (mkTensor [2%nat; 3%nat] [101; 105; 109; 102; 106; 110],
         mkTensor [6%nat] [102; 106; 110; 103; 107; 111]).
Proof. reflexivity. Qed.

(** batchify returns exactly for a batch size of at least 1: a batch
    size of 0 raises ZeroDivisionError at the division and a negative
    one raises RuntimeError, at narrow or at view; a batch size larger
    than the data returns a tensor of no rows, all data dropped. *)
Theorem batchify_batch_size (data : Tensor) (n : nat) (bsz : Z) :
  shape data = [n] → length (elems data) = n →
  (bsz = 0 → batchify data bsz = inl ZeroDivisionError)
  ∧ (bsz < 0 → batchify data bsz = inl RuntimeError)
  ∧ (0 < bsz → ∃ out, batchify data bsz = inr out)
  ∧ (Z.of_nat n < bsz → batchify data bsz = inr (mkTensor [0%nat; Z.to_nat bsz] [])).
Proof.
  intros Hsh Hlen. split; [|split; [|split]].
  - intros ->. unfold batchify, size0. by rewrite Hsh.
  - intros Hneg. unfold batchify, size0. rewrite Hsh. simpl.
    unfold floordiv. case_decide; [lia|]. simpl.
    pose proof (Z.div_mod (Z.of_nat n) bsz ltac:(lia)) as Hdm.
    pose proof (Z.mod_neg_bound (Z.of_nat n) bsz Hneg) as Hmod.
    unfold narrow0. rewrite Hsh. case_decide as Hfit; [|done]. simpl.
    unfold view_rows. case_decide as Hview; [lia|done].
  - intros Hpos. replace bsz with (Z.of_nat (Z.to_nat bsz)) by lia.
    rewrite (batchify_eval data n (Z.to_nat bsz)) by (done || lia). by eexists.
  - intros Hbig. replace bsz with (Z.of_nat (Z.to_nat bsz)) at 1 by lia.
    rewrite (batchify_eval data n (Z.to_nat bsz)) by (done || lia).
    by rewrite Nat.div_small by lia.
Qed.

Lemma batchify_batch_size_witness :
  (-2 = 0 → batchify (mkTensor [6%nat] [1; 2; 3; 4; 5; 6]) (-2) = inl ZeroDivisionError)
  ∧ (-2 < 0 → batchify (mkTensor [6%nat] [1; 2; 3; 4; 5; 6]) (-2) = inl RuntimeError)
  ∧ (0 < -2 → ∃ out, batchify (mkTensor [6%nat] [1; 2; 3; 4; 5; 6]) (-2) = inr out)
  ∧ (Z.of_nat 6 < -2 →
     batchify (mkTensor [6%nat] [1; 2; 3; 4; 5; 6]) (-2)
     = inr (mkTensor [0%nat; Z.to_nat (-2)] [])).
Proof.
  apply (batchify_batch_size (mkTensor [6%nat] [1; 2; 3; 4; 5; 6]) 6 (-2));
    reflexivity.
Defined.

Example batchify_negative :
  batchify (mkTensor [6%nat] [1; 2; 3; 4; 5; 6]) (-2) = inl RuntimeError
  ∧ batchify (mkTensor [7%nat] [1; 2; 3; 4; 5; 6; 7]) (-2) = inl RuntimeError.
Proof. split; reflexivity. Qed.

(** ** evaluate on a source without rows *)

Section EvaluateEmpty.
Context `{Framework} {S : Type}.

(** A source of no rows: the loop does not run and the final division
    is by zero. *)
Lemma evaluate_no_rows (ntokens : Z) (model : RNN) (source : Tensor) (rest : list nat)
    (hidden : Hidden) (σ : S * list Event) :
  shape source = 0%nat :: rest →
  init_hidden model eval_batch_size = inr hidden →
  evaluate ntokens model source σ
  = ((σ.1, σ.2 ++ [EvCall CallInitHidden None; EvCall CallSize None;
                   EvCall CallLen None; EvCall CallTrueDiv (Some ZeroDivisionError)]),
     inl ZeroDivisionError).
Proof.
  intros Hsh Hinit. unfold evaluate. rewrite call_bind. simpl. rewrite Hinit.
  rewrite call_bind. unfold size0, len. rewrite Hsh. simpl.
  rewrite M_bind_unfold. simpl. rewrite call_bind. simpl.
  unfold call, truediv. simpl. by rewrite <- !app_assoc.
Qed.

(** A corpus shorter than the batch size cannot be evaluated.  batchify
    returns a tensor of no rows for it, and evaluate on that tensor
    raises ZeroDivisionError without running the model. *)
Theorem evaluate_short_corpus (ntokens : Z) (model : RNN) (data : Tensor) (n bsz : nat)
    (hidden : Hidden) (σ : S * list Event) :
  shape data = [n] → length (elems data) = n → (n < bsz)%nat →
  init_hidden model eval_batch_size = inr hidden →
  ∃ source : Tensor,
    batchify data (Z.of_nat bsz) = inr source
    ∧ shape source = [0%nat; bsz]
    ∧ (evaluate ntokens model source σ).2 = inl ZeroDivisionError
    ∧ forward_calls (evaluate ntokens model source σ).1.2 = forward_calls σ.2.
Proof.
  intros Hsh Hlen Hsmall Hinit.
  rewrite (batchify_eval data n bsz) by (done || lia).
  rewrite Nat.div_small by done. simpl.
  eexists. split; [done|]. split; [done|].
  match goal with
  | |- context [evaluate ntokens model ?source σ] =>
      rewrite (evaluate_no_rows ntokens model source [bsz] hidden σ eq_refl Hinit)
  end. simpl.
  split; [done|]. rewrite forward_calls_app. simpl. lia.
Qed.
End EvaluateEmpty.

(** Seven tokens, batches of ten. *)
Lemma evaluate_short_corpus_witness :
  ∃ source : Tensor,
    batchify (mkTensor [7%nat] [1; 2; 3; 4; 5; 6; 7]) (Z.of_nat 10) = inr source
    ∧ shape source = [0%nat; 10%nat]
    ∧ (@evaluate toy () 5 toy_model source ((), [])).2 = inl ZeroDivisionError
    ∧ @forward_calls toy (@evaluate toy () 5 toy_model source ((), [])).1.2
      = @forward_calls toy [].
Proof.
  apply (@evaluate_short_corpus toy () 5 toy_model (mkTensor [7%nat] [1; 2; 3; 4; 5; 6; 7])
           7 10 (@HTuple toy []) ((), [])); [reflexivity | reflexivity | lia | reflexivity].
Defined.

(** ** repackage_hidden *)

Section HiddenStates.
Context `{Framework}.

(** Induction over hidden states, through the items of a tuple. *)
Lemma Hidden_ind_items (P : Hidden → Prop) :
  (∀ history value, P (HTensor history value)) →
  (∀ items, Forall P items → P (HTuple items)) →
  ∀ h, P h.
Proof.
  intros Htensor Htuple. fix IH 1. intros [history value|items]; [apply Htensor|].
  apply Htuple. induction items as [|h items IHitems]; constructor;
    [apply IH | apply IHitems].
Qed.

Lemma has_history_repackage (h : Hidden) : has_history (repackage_hidden h) = false.
Proof.
  induction h as [history value|items IH] using Hidden_ind_items; [done|].
  change (existsb has_history (repackage_hidden <$> items) = false).
  induction IH as [|h items Hh _ IH]; [done|].
  rewrite fmap_cons. simpl existsb. by rewrite Hh, IH.
Qed.

Lemma repackage_hidden_id (h : Hidden) :
  has_history h = false → repackage_hidden h = h.
Proof.
  induction h as [history value|items IH] using Hidden_ind_items.
  - simpl. by intros ->.
  - change (existsb has_history items = false
            → HTuple (repackage_hidden <$> items) = HTuple items).
    intros Hno. f_equal.
    induction IH as [|h items Hh _ IH]; [done|].
    simpl in Hno. apply orb_false_iff in Hno as [Hno1 Hno2].
    rewrite fmap_cons. by rewrite (Hh Hno1), (IH Hno2).
Qed.

(** repackage_hidden detaches every tensor of a hidden state, however
    the tuples are nested, and changes nothing else: the values are the
    same, in the same places.  Repackaging twice is repackaging once,
    and a state without history is returned as it is. *)
Theorem repackage_hidden_detaches (h : Hidden) :
  has_history (repackage_hidden h) = false
  ∧ hidden_values (repackage_hidden h) = hidden_values h
  ∧ repackage_hidden (repackage_hidden h) = repackage_hidden h
  ∧ (has_history h = false → repackage_hidden h = h).
Proof.
  split; [apply has_history_repackage|].
  split; [|split; [apply repackage_hidden_id, has_history_repackage
                  |apply repackage_hidden_id]].
  induction h as [history value|items IH] using Hidden_ind_items; [done|].
  change (mjoin (hidden_values <$> (repackage_hidden <$> items))
          = mjoin (hidden_values <$> items)).
  induction IH as [|h items Hh _ IH]; [done|].
  rewrite !fmap_cons. simpl mjoin. by rewrite Hh, IH.
Qed.

(** *** The hidden states that evaluate hands to the model *)

Lemma evaluate_step_detached {S : Type} (model : RNN) (ntokens : Z) (data_source : Tensor)
    (vars : Float * Hidden) (i : Z) (σ σ' : S * list Event)
    (total_loss : Float) (hidden : Hidden) :
  evaluate_step model ntokens data_source vars i σ = (σ', inr (total_loss, hidden)) →
  has_history hidden = false.
Proof.
  destruct vars as [total_loss0 hidden0]. unfold evaluate_step.
  rewrite call_bind. destruct (get_batch data_source i) as [e|[data targets]]; [done|].
  cbv beta iota. rewrite call_bind.
  destruct (forward model (training model) data hidden0) as [e|[output hidden1]]; [done|].
  cbv beta iota. rewrite call_bind.
  destruct (view_tokens output ntokens) as [e|output_flat]; [done|].
  rewrite call_bind. destruct (len data) as [e|rows]; [done|].
  rewrite call_bind. destruct (criterion output_flat targets) as [e|loss]; [done|].
  intros [= _ _ <-]. apply has_history_repackage.
Qed.

Lemma evaluate_step_detach_inputs {S : Type} (model : RNN) (ntokens : Z)
    (data_source : Tensor) (total_loss : Float) (hidden : Hidden) (i : Z)
    (σ : S * list Event) :
  has_history hidden = false →
  evaluate_step (set_eval (detach_inputs model)) ntokens data_source (total_loss, hidden) i σ
  = evaluate_step (set_eval model) ntokens data_source (total_loss, hidden) i σ.
Proof.
  intros Hno. unfold evaluate_step, set_eval, detach_inputs. cbn [forward training].
  by rewrite (repackage_hidden_id hidden Hno).
Qed.

Lemma evaluate_loop_detach_inputs {S : Type} (model : RNN) (ntokens : Z)
    (data_source : Tensor) (starts : list Z) (total_loss : Float) (hidden : Hidden)
    (σ : S * list Event) :
  has_history hidden = false →
  for_fold (evaluate_step (set_eval (detach_inputs model)) ntokens data_source)
           (total_loss, hidden) starts σ
  = for_fold (evaluate_step (set_eval model) ntokens data_source)
             (total_loss, hidden) starts σ.
Proof.
  revert total_loss hidden σ.
  induction starts as [|i starts IH]; intros total_loss hidden σ Hno; [done|].
  rewrite !for_fold_cons, !M_bind_unfold, evaluate_step_detach_inputs by done.
  destruct (evaluate_step (set_eval model) ntokens data_source (total_loss, hidden) i σ)
    as [σ' [e|[total_loss' hidden']]] eqn:Hstep; [done|].
  apply IH. by apply evaluate_step_detached in Hstep.
Qed.

(** With a model whose init_hidden returns a state without history,
    the model never sees a hidden state with history during evaluate:
    evaluate runs the same, call by call, on the model that detaches
    the hidden state it is given. *)
Theorem evaluate_hidden_detached {S : Type} (ntokens : Z) (model : RNN)
    (data_source : Tensor) (σ : S * list Event) :
  (∀ h, init_hidden model eval_batch_size = inr h → has_history h = false) →
  evaluate ntokens (detach_inputs model) data_source σ
  = evaluate ntokens model data_source σ.
Proof.
  intros Hinit. unfold evaluate.
  change (init_hidden (set_eval (detach_inputs model)))
    with (init_hidden (set_eval model)).
  rewrite !call_bind.
  destruct (init_hidden (set_eval model) eval_batch_size) as [e|hidden] eqn:Hh; [done|].
  rewrite !call_bind. destruct (size0 data_source) as [e|n]; [done|].
  rewrite !M_bind_unfold, evaluate_loop_detach_inputs; [done|].
  by apply Hinit.
Qed.
End HiddenStates.

(** An LSTM's hidden state is a pair (h, c); here h carries history. *)
Example repackage_hidden_pair :
  @repackage_hidden toy (@HTuple toy [@HTensor toy true [1; 2]; @HTensor toy false [3]])
  = @HTuple toy [@HTensor toy false [1; 2]; @HTensor toy false [3]].
Proof. reflexivity. Qed.

Lemma evaluate_hidden_detached_witness :
  @evaluate toy unit 5 (@detach_inputs toy toy_model) toy_data ((), [])
  = @evaluate toy unit 5 toy_model toy_data ((), []).
Proof.
  apply (@evaluate_hidden_detached toy unit 5 toy_model toy_data ((), [])).
  intros h [= <-]. reflexivity.
Defined.

(** ** The capture cell on a model that already carries hooks *)

Section HookFrame.
Context `{Framework}.
Variable names : gmap nat string.

Lemma filter_ext_in {A : Type} (P Q : A → Prop)
    `{!∀ x, Decision (P x), !∀ x, Decision (Q x)} (l : list A) :
  (∀ x, x ∈ l → (P x ↔ Q x)) → filter P l = filter Q l.
Proof.
  induction l as [|a l IH]; intros Hext; [done|].
  rewrite !filter_cons. rewrite IH by (intros x Hx; apply Hext; by right).
  apply decide_ext, Hext. left.
Qed.

Lemma filter_all {A : Type} (P : A → Prop) `{!∀ x, Decision (P x)} (l : list A) :
  (∀ x, x ∈ l → P x) → filter P l = l.
Proof.
  induction l as [|a l IH]; intros Hall; [done|].
  rewrite filter_cons_True by (apply Hall; left).
  f_equal. apply IH. intros x Hx. apply Hall. by right.
Qed.

Lemma next_handle_id_registered (nb : Notebook) (x : NNModule) :
  next_handle_id (registered names nb x)
  = match names !! x with
    | Some _ => S (next_handle_id nb)
    | None => next_handle_id nb
    end.
Proof. unfold registered. by destruct (names !! x). Qed.

(** [apply] on a model that carries hooks already: the old hooks stay,
    the new ones have fresh keys, and cb_handles has exactly the
    handles of the new ones. *)
Lemma registered_over_hooks (modules : list NNModule) (nb0 : Notebook) :
  cb_handles nb0 = [] →
  (∀ m kh, kh ∈ hooks_of nb0 m → (kh.1 < next_handle_id nb0)%nat) →
  let nb := foldl (registered names) nb0 modules in
  (next_handle_id nb0 ≤ next_handle_id nb)%nat
  ∧ (∀ m, filter (λ kh, (kh.1 < next_handle_id nb0)%nat) (hooks_of nb m) = hooks_of nb0 m)
  ∧ (∀ m kh, kh ∈ hooks_of nb m → (kh.1 < next_handle_id nb)%nat)
  ∧ (∀ m kh, kh ∈ hooks_of nb m → (next_handle_id nb0 ≤ kh.1)%nat →
             mkHandle m kh.1 ∈ cb_handles nb)
  ∧ (∀ h, h ∈ cb_handles nb →
          (next_handle_id nb0 ≤ handle_id h < next_handle_id nb)%nat)
  ∧ (∀ m, hooks_of nb m ≠ [] ↔ hooks_of nb0 m ≠ [] ∨ hooked names modules m)
  ∧ NoDup (cb_handles nb)
  ∧ length (cb_handles nb) = length (filter (λ m, is_Some (names !! m)) modules)
  ∧ intermediary_results nb = intermediary_results nb0
  ∧ files nb = files nb0.
Proof.
  intros Hc0 Hfresh. induction modules as [|x modules IH] using rev_ind; simpl.
  - rewrite Hc0. split; [done|]. split.
    { intros m. apply filter_all. intros kh Hkh. by apply (Hfresh m). }
    split; [done|]. split; [intros m kh Hkh Hle; apply (Hfresh m) in Hkh; lia|].
    split; [by intros h ?%elem_of_nil|]. split.
    { intros m. unfold hooked. split; [by left|]. intros [?|[Hm _]]; [done|].
      by apply elem_of_nil in Hm. }
    split; [constructor|done].
  - rewrite foldl_app. simpl.
    destruct IH as (I1 & I2 & I3 & I4 & I5 & I6 & I7 & I8 & I9 & I10).
    set (nb := foldl (registered names) nb0 modules) in *.
    destruct (registered_frame names nb x) as [Hf1 Hf2].
    rewrite next_handle_id_registered, cb_handles_registered, filter_app, length_app.
    rewrite Hf1, Hf2.
    assert (Hhooks : ∀ m, hooks_of (registered names nb x) m
                          = match names !! x with
                            | Some _ =>
                                if decide (x = m)
                                then hooks_of nb x
                                       ++ [(next_handle_id nb, save_conv_output_hook)]
                                else hooks_of nb m
                            | None => hooks_of nb m
                            end) by apply hooks_of_registered.
    assert (Hhooked : ∀ m, hooked names (modules ++ [x]) m
                           ↔ hooked names modules m ∨ (m = x ∧ is_Some (names !! x))).
    { intros m. unfold hooked. rewrite elem_of_app, list_elem_of_singleton.
      split; [intros [[?| ->] ?]; [left|right]; done|].
      intros [[? ?]|[-> ?]]; split; auto. }
    destruct (names !! x) as [name|] eqn:Hx.
    + split; [lia|]. split.
      { intros m. rewrite Hhooks. case_decide as Hxm; [subst m|apply I2].
        rewrite filter_app, I2, filter_cons_False, filter_nil, app_nil_r by (simpl; lia).
        done. }
      split.
      { intros m kh. rewrite Hhooks. case_decide as Hxm.
        - subst m. rewrite elem_of_app, list_elem_of_singleton.
          intros [Hold| ->]; [apply I3 in Hold; lia | simpl; lia].
        - intros Hold. apply I3 in Hold. lia. }
      split.
      { intros m kh. rewrite Hhooks, elem_of_app, list_elem_of_singleton.
        case_decide as Hxm.
        - subst m. rewrite elem_of_app, list_elem_of_singleton.
          intros [Hold| ->] Hle; [left; by apply I4 | by right].
        - intros Hold Hle. left. by apply I4. }
      split.
      { intros h. rewrite elem_of_app, list_elem_of_singleton.
        intros [Hold| ->]; [apply I5 in Hold; lia | simpl; lia]. }
      split.
      { intros m. rewrite Hhooks, Hhooked. case_decide as Hxm.
        - subst m. split; [intros _; right; right; by split|].
          intros _. by destruct (hooks_of nb x).
        - rewrite I6. split; [intros [?|?]; auto|].
          intros [?|[?|[? ?]]]; auto; congruence. }
      split.
      { apply NoDup_app. split; [done|]. split; [|apply NoDup_singleton].
        intros h Hh ->%list_elem_of_singleton. apply I5 in Hh. simpl in Hh. lia. }
      rewrite filter_cons_True, filter_nil by (by rewrite Hx). simpl.
      split; [by rewrite ?length_app, I8|done].
    + split; [done|]. split; [intros m; rewrite Hhooks; apply I2|].
      split; [intros m kh; rewrite Hhooks; apply I3|].
      split; [intros m kh; rewrite Hhooks; apply I4|].
      split; [done|]. split.
      { intros m. rewrite Hhooks, Hhooked, I6.
        split; [intros [?|?]; auto|]. intros [?|[?|[_ [? ?]]]]; auto; done. }
      split; [done|].
      rewrite filter_cons_False, filter_nil by (rewrite Hx; by intros [? ?]).
      rewrite ?app_nil_r, ?length_app. simpl. split; [lia|done].
Qed.

(** The forward pass, when the modules that carry a hook are those of
    [has_hook]. *)
Lemma fired_over_hooks (has_hook : NNModule → Prop) `{!∀ m, Decision (has_hook m)}
    (calls : list (NNModule * FTensor)) (nb : Notebook) :
  (∀ m, is_Some (names !! m) → (hooks_of nb m ≠ [] ↔ has_hook m)) →
  let nb' := foldl (fired names) nb calls in
  (∀ m, hooks_of nb' m = hooks_of nb m)
  ∧ cb_handles nb' = cb_handles nb
  ∧ files nb' = files nb
  ∧ next_handle_id nb' = next_handle_id nb
  ∧ intermediary_results nb'
    = foldl (λ d mo,
               match names !! mo.1 with
               | Some name =>
                   if decide (has_hook mo.1) then <[name := to_numpy mo.2]> d else d
               | None => d
               end) (intermediary_results nb) calls.
Proof.
  revert nb. induction calls as [|mo calls IH]; intros nb Hhooks; [done|].
  simpl. destruct (fired_frame names nb mo) as (Hf1 & Hf2 & Hf3).
  destruct (IH (fired names nb mo)) as (IH1 & IH2 & IH3 & IH4 & IH5).
  { intros m. by rewrite hooks_of_fired; apply Hhooks. }
  split; [intros m; by rewrite IH1, hooks_of_fired|].
  split; [congruence|]. split; [congruence|].
  split.
  { rewrite IH4. unfold fired. by destruct (hooks_of nb mo.1), (names !! mo.1). }
  rewrite IH5. f_equal. unfold fired.
  pose proof (Hhooks mo.1) as Hmo.
  destruct (hooks_of nb mo.1) as [|kh hs], (names !! mo.1) as [name|] eqn:Hname;
    try done.
  - case_decide as Hin; [|done]. exfalso. by apply (proj2 (Hmo (mk_is_Some _ _ eq_refl))).
  - rewrite decide_True; [done|]. by apply (Hmo (mk_is_Some _ _ eq_refl)).
Qed.

(** Removing handles takes away the hooks of these handles, and no
    other. *)
Lemma hooks_of_removed_all (hs : list Handle) (nb : Notebook) (m : NNModule) :
  hooks_of (foldl removed nb hs) m
  = filter (λ kh, mkHandle m kh.1 ∉ hs) (hooks_of nb m).
Proof.
  revert nb. induction hs as [|h hs IH]; intros nb; simpl.
  - symmetry. apply filter_all. intros kh _. apply not_elem_of_nil.
  - rewrite IH, hooks_of_removed. case_decide as Hm.
    + rewrite list_filter_filter. apply filter_ext_in. intros kh _.
      rewrite not_elem_of_cons. destruct h as [hm hid]. simpl in *. subst hm.
      split; [intros [? ?]; split; [congruence|done]|].
      intros [Hne ?]. split; [done|]. intros Heq. apply Hne. by rewrite Heq.
    + apply filter_ext_in. intros kh _. rewrite not_elem_of_cons.
      destruct h as [hm hid]. simpl in *.
      split; [intros ?; split; [congruence|done] | by intros [_ ?]].
Qed.

Lemma removed_keeps_handles (hs : list Handle) (nb : Notebook) :
  cb_handles (foldl removed nb hs) = cb_handles nb
  ∧ next_handle_id (foldl removed nb hs) = next_handle_id nb.
Proof.
  revert nb. induction hs as [|h hs IH]; intros nb; [done|].
  simpl. by destruct (IH (removed nb h)) as [-> ->].
Qed.

(** The cell on a model that carries hooks already, when the forward
    pass returns. *)
Lemma capture_cell_over_hooks (modules : list NNModule) (run : ForwardRun)
    (out : FTensor) (nb0 : Notebook) :
  (∀ m kh, kh ∈ hooks_of nb0 m → (kh.1 < next_handle_id nb0)%nat) →
  (∀ m, hooks_of nb0 m ≠ [] → is_Some (names !! m)) →
  run_result run = inr out →
  ∃ nb' : Notebook,
    runs_to (capture_cell names modules run) nb0 nb' ()
    ∧ (∀ m, hooks_of nb' m = hooks_of nb0 m)
    ∧ intermediary_results nb'
      = captured_by names (λ m, m ∈ modules ∨ hooks_of nb0 m ≠ []) (run_calls run)
    ∧ NoDup (cb_handles nb')
    ∧ length (cb_handles nb') = length (filter (λ m, is_Some (names !! m)) modules)
    ∧ (next_handle_id nb0 ≤ next_handle_id nb')%nat
    ∧ (∀ m kh, kh ∈ hooks_of nb' m → (kh.1 < next_handle_id nb')%nat)
    ∧ files nb' = files nb0.
Proof.
  intros Hfresh Hnamed Hout.
  set (s1 := set_intermediary_results (λ _, ∅) nb0).
  set (s2 := set_cb_handles (λ _, []) s1).
  set (s3 := foldl (registered names) s2 modules).
  set (s4 := foldl (fired names) s3 (run_calls run)).
  set (s5 := foldl removed s4 (cb_handles s4)).
  destruct (registered_over_hooks modules s2)
    as (R1 & R2 & R3 & R4 & R5 & R6 & R7 & R8 & R9 & R10); [done..|].
  fold s3 in R1, R2, R3, R4, R5, R6, R7, R8, R9, R10.
  change (next_handle_id s2) with (next_handle_id nb0) in *.
  assert (R6' : ∀ m, is_Some (names !! m) →
                     (hooks_of s3 m ≠ [] ↔ m ∈ modules ∨ hooks_of nb0 m ≠ [])).
  { intros m Hm. rewrite R6. unfold hooked.
    change (hooks_of s2 m) with (hooks_of nb0 m). tauto. }
  destruct (fired_over_hooks (λ m, m ∈ modules ∨ hooks_of nb0 m ≠ [])
              (run_calls run) s3 R6') as (F1 & F2 & F3 & F4 & F5).
  fold s4 in F1, F2, F3, F4, F5.
  destruct (removed_frame (cb_handles s4) s4) as [V1 V2]. fold s5 in V1, V2.
  destruct (removed_keeps_handles (cb_handles s4) s4) as [W1 W2]. fold s5 in W1, W2.
  assert (Hrestored : ∀ m, hooks_of s5 m = hooks_of nb0 m).
  { intros m. unfold s5. rewrite hooks_of_removed_all, F1, F2.
    transitivity (filter (λ kh : nat * Hook, (kh.1 < next_handle_id nb0)%nat)
                         (hooks_of s3 m)); [|apply R2].
    apply filter_ext_in. intros kh Hkh.
    split.
    - intros Hnot. destruct (decide (kh.1 < next_handle_id nb0)%nat) as [|Hge]; [done|].
      exfalso. apply Hnot, R4; [done|lia].
    - intros Hlt Hin. apply R5 in Hin. simpl in Hin. lia. }
  exists s5. split; [|split; [done|split; [|split; [|split; [|split; [|split]]]]]].
  - unfold capture_cell. do 2 run_step.
    eapply runs_to_bind.
    { apply (runs_to_for_each (λ _, True) (register_forward_hook names)
               (registered names) modules s2 I).
      intros x s _. split; [apply register_runs | done]. }
    eapply runs_to_bind.
    { unfold model_call. eapply runs_to_bind.
      - apply (runs_to_for_each
                 (λ s, ∀ m, hooks_of s m ≠ [] → is_Some (names !! m))
                 (fire_hooks names) (fired names) (run_calls run) s3).
        + intros m Hm. apply R6 in Hm as [Hm|[_ Hm]]; [|done].
          by apply Hnamed.
        + intros mo s Hs. split; [by apply fire_hooks_runs|].
          intros m. by rewrite hooks_of_fired; apply Hs.
      - rewrite Hout. apply runs_to_call. }
    run_step.
    eapply runs_to_bind.
    { apply (runs_to_for_each (λ _, True) handle_remove removed (cb_handles s4) s4 I).
      intros h s _. split; [apply removed_runs | done]. }
    run_step. apply runs_to_print.
  - rewrite V1, F5, R9. done.
  - by rewrite W1, F2.
  - by rewrite W1, F2.
  - rewrite W2, F4. done.
  - intros m kh. rewrite Hrestored, W2, F4. intros Hkh.
    apply (Hfresh m) in Hkh. lia.
  - rewrite V2, F3, R10. done.
Qed.
End HookFrame.

(** ** Running the capture cell again *)

Section CaptureAgain.
Context `{Framework}.
Variable names : gmap nat string.

Lemma captured_by_modules (has_hook : NNModule → Prop) `{!∀ m, Decision (has_hook m)}
    (modules : list NNModule) (calls : list (NNModule * FTensor)) :
  (∀ m, is_Some (names !! m) → (has_hook m ↔ m ∈ modules)) →
  captured_by names has_hook calls = captured names modules calls.
Proof.
  intros Hext. unfold captured_by, captured.
  generalize (∅ : gmap string NdArray).
  induction calls as [|mo calls IH]; intros d; [done|].
  simpl. rewrite <- IH. f_equal.
  destruct (names !! mo.1) as [name|] eqn:Hname; [|done].
  apply decide_ext, Hext. by rewrite Hname.
Qed.

(** The store after a forward pass of a model whose hooked modules
    are named, whether the pass returns or raises. *)
Lemma model_call_state (run : ForwardRun) (nb : Notebook) (log : list Event) :
  (∀ m, hooks_of nb m ≠ [] → is_Some (names !! m)) →
  (model_call names run (nb, log)).1.1 = foldl (fired names) nb (run_calls run).
Proof.
  intros Hnamed. unfold model_call. rewrite M_bind_unfold.
  destruct (runs_to_for_each
              (λ s, ∀ m, hooks_of s m ≠ [] → is_Some (names !! m))
              (fire_hooks names) (fired names) (run_calls run) nb Hnamed)
    as [Hrun _].
  { intros mo s Hs. split; [by apply fire_hooks_runs|].
    intros m. by rewrite hooks_of_fired; apply Hs. }
  destruct (Hrun log) as [log' ->]. unfold call. done.
Qed.

(** The cell on a model that carries hooks already, when the forward
    pass raises. *)
Lemma capture_cell_raises_over_hooks (modules : list NNModule) (run : ForwardRun)
    (e : PyErr) (nb0 : Notebook) (log : list Event) :
  (∀ m kh, kh ∈ hooks_of nb0 m → (kh.1 < next_handle_id nb0)%nat) →
  (∀ m, hooks_of nb0 m ≠ [] → is_Some (names !! m)) →
  run_result run = inl e →
  ∃ (nb' : Notebook) (log' : list Event),
    capture_cell names modules run (nb0, log) = ((nb', log'), inl e)
    ∧ (∀ m, hooks_of nb' m ≠ [] ↔ hooks_of nb0 m ≠ [] ∨ hooked names modules m)
    ∧ (∀ m kh, kh ∈ hooks_of nb' m → (kh.1 < next_handle_id nb')%nat)
    ∧ intermediary_results nb'
      = captured_by names (λ m, m ∈ modules ∨ hooks_of nb0 m ≠ []) (run_calls run).
Proof.
  intros Hfresh Hnamed Hraise.
  set (s1 := set_intermediary_results (λ _, ∅) nb0).
  set (s2 := set_cb_handles (λ _, []) s1).
  set (s3 := foldl (registered names) s2 modules).
  set (s4 := foldl (fired names) s3 (run_calls run)).
  destruct (registered_over_hooks names modules s2)
    as (R1 & R2 & R3 & R4 & R5 & R6 & R7 & R8 & R9 & R10); [done..|].
  fold s3 in R1, R2, R3, R4, R5, R6, R7, R8, R9, R10.
  assert (R6' : ∀ m, is_Some (names !! m) →
                     (hooks_of s3 m ≠ [] ↔ m ∈ modules ∨ hooks_of nb0 m ≠ [])).
  { intros m Hm. rewrite R6. unfold hooked.
    change (hooks_of s2 m) with (hooks_of nb0 m). tauto. }
  destruct (fired_over_hooks names (λ m, m ∈ modules ∨ hooks_of nb0 m ≠ [])
              (run_calls run) s3 R6') as (F1 & F2 & F3 & F4 & F5).
  fold s4 in F1, F2, F3, F4, F5.
  unfold capture_cell.
  assert (Hreg : runs_to (apply modules (register_forward_hook names)) s2 s3 ()).
  { apply (runs_to_for_each (λ _, True) (register_forward_hook names)
             (registered names) modules s2 I).
    intros x s _. split; [apply register_runs | done]. }
  assert (Hfire : runs_to (for_each (fire_hooks names) (run_calls run)) s3 s4 ()).
  { apply (runs_to_for_each
             (λ s, ∀ m, hooks_of s m ≠ [] → is_Some (names !! m))
             (fire_hooks names) (fired names) (run_calls run) s3).
    - intros m Hm. apply R6 in Hm as [Hm|[_ Hm]]; [|done]. by apply Hnamed.
    - intros mo s Hs. split; [by apply fire_hooks_runs|].
      intros m. by rewrite hooks_of_fired; apply Hs. }
  match goal with
  | |- ∃ _ _, (?m ≫= ?k) (_, ?l) = _ ∧ _ =>
      destruct (runs_to_then m k nb0 s1 () l (runs_to_modify _ _)) as [log1 ->]
  end; cbv beta.
  match goal with
  | |- ∃ _ _, (?m ≫= ?k) (_, ?l) = _ ∧ _ =>
      destruct (runs_to_then m k s1 s2 () l (runs_to_modify _ _)) as [log2 ->]
  end; cbv beta.
  match goal with
  | |- ∃ _ _, (?m ≫= ?k) (_, ?l) = _ ∧ _ =>
      destruct (runs_to_then m k s2 s3 () l Hreg) as [log3 ->]
  end; cbv beta.
  rewrite M_bind_unfold. unfold model_call.
  match goal with
  | |- context [(?m ≫= ?k) (s3, ?l)] =>
      destruct (runs_to_then m k s3 s4 () l Hfire) as [log4 ->]
  end; cbv beta.
  rewrite Hraise. unfold call. simpl.
  eexists _, _. split; [done|]. split; [|split].
  - intros m. rewrite F1. apply R6.
  - intros m kh. rewrite F1, F4. apply R3.
  - by rewrite F5, R9.
Qed.

(** A hook that the model carries when the cell starts is still there
    when the cell has completed: the cell removes the hooks it has
    registered itself, and no other.  During the forward pass such a
    hook stores the output of its module like the hooks of the cell. *)
Theorem capture_cell_keeps_earlier_hooks (modules : list NNModule) (run : ForwardRun)
    (out : FTensor) (nb0 : Notebook) :
  (∀ m kh, kh ∈ hooks_of nb0 m → (kh.1 < next_handle_id nb0)%nat) →
  (∀ m, hooks_of nb0 m ≠ [] → is_Some (names !! m)) →
  run_result run = inr out →
  ∃ nb' : Notebook,
    runs_to (capture_cell names modules run) nb0 nb' ()
    ∧ (∀ m, hooks_of nb' m = hooks_of nb0 m)
    ∧ intermediary_results nb'
      = captured_by names (λ m, m ∈ modules ∨ hooks_of nb0 m ≠ []) (run_calls run)
    ∧ NoDup (cb_handles nb')
    ∧ length (cb_handles nb') = length (filter (λ m, is_Some (names !! m)) modules).
Proof.
  intros Hfresh Hnamed Hout.
  destruct (capture_cell_over_hooks names modules run out nb0 Hfresh Hnamed Hout)
    as (nb' & Hrun & Hhooks & Hres & Hnodup & Hlen & _).
  by exists nb'.
Qed.

(** When the forward pass of the cell has raised, running the cell
    again with a forward pass that returns does not clean up: the
    dictionary is that of the second pass, but every hooked module
    keeps a hook of the first run, and a later forward pass outside
    the cell still writes to the dictionary. *)
Theorem failed_run_hooks_outlive_rerun (modules : list NNModule) (run1 run2 : ForwardRun)
    (e : PyErr) (out : FTensor) (nb0 : Notebook) (log : list Event) :
  forward_hooks nb0 = ∅ → run_result run1 = inl e → run_result run2 = inr out →
  ∃ (nb1 : Notebook) (log1 : list Event) (nb2 : Notebook),
    capture_cell names modules run1 (nb0, log) = ((nb1, log1), inl e)
    ∧ runs_to (capture_cell names modules run2) nb1 nb2 ()
    ∧ (∀ m, hooks_of nb2 m ≠ [] ↔ hooked names modules m)
    ∧ intermediary_results nb2 = captured names modules (run_calls run2)
    ∧ ∀ (run3 : ForwardRun) (log3 : list Event) (before : list (NNModule * FTensor))
        (m : NNModule) (o : FTensor) (name : string),
        hooked names modules m → names !! m = Some name →
        run_calls run3 = before ++ [(m, o)] →
        intermediary_results (model_call names run3 (nb2, log3)).1.1 !! name
        = Some (to_numpy o).
Proof.
  intros Hh0 Hraise Hout.
  assert (Hnone : ∀ m, hooks_of nb0 m = []).
  { intros m. unfold hooks_of. by rewrite Hh0, lookup_empty. }
  destruct (capture_cell_raises_over_hooks modules run1 e nb0 log)
    as (nb1 & log1 & Hrun1 & Hhooks1 & Hfresh1 & _); [| |done|].
  { intros m kh. rewrite Hnone. by intros ?%elem_of_nil. }
  { intros m. by rewrite Hnone. }
  assert (Hhooked1 : ∀ m, hooks_of nb1 m ≠ [] ↔ hooked names modules m).
  { intros m. rewrite Hhooks1, Hnone. split; [by intros [?|?]|by right]. }
  destruct (capture_cell_over_hooks names modules run2 out nb1)
    as (nb2 & Hrun2 & Hhooks2 & Hres2 & _); [done| |done|].
  { intros m Hm. apply Hhooked1 in Hm. by destruct Hm. }
  assert (Hhooked2 : ∀ m, hooks_of nb2 m ≠ [] ↔ hooked names modules m).
  { intros m. by rewrite Hhooks2. }
  exists nb1, log1, nb2. split; [done|]. split; [done|]. split; [done|]. split.
  - rewrite Hres2. apply captured_by_modules. intros m Hm.
    rewrite Hhooked1. unfold hooked. tauto.
  - intros run3 log3 before m o name Hm Hname Hcalls.
    rewrite model_call_state.
    2:{ intros m' Hm'. apply Hhooked2 in Hm'. by destruct Hm'. }
    rewrite Hcalls, foldl_app. simpl.
    set (nb3 := foldl (fired names) nb2 before).
    assert (Hhooks3 : hooks_of nb3 m ≠ []).
    { destruct (fired_over_hooks names (hooked names modules) before nb2)
        as (F1 & _); [intros m' _; apply Hhooked2|].
      fold nb3 in F1. rewrite F1. by apply Hhooked2. }
    unfold fired. simpl. rewrite Hname.
    destruct (hooks_of nb3 m) as [|kh hs]; [done|].
    simpl. apply lookup_insert_eq.
Qed.

(** Running the cell a second time starts afresh: the dictionary holds
    the entries of the second forward pass only, cb_handles holds the
    handles of the second run only, and again no hook is left. *)
Theorem capture_cell_rerun (modules : list NNModule) (run1 run2 : ForwardRun)
    (out1 out2 : FTensor) (nb0 : Notebook) :
  forward_hooks nb0 = ∅ → run_result run1 = inr out1 → run_result run2 = inr out2 →
  ∃ nb1 nb2 : Notebook,
    runs_to (capture_cell names modules run1) nb0 nb1 ()
    ∧ runs_to (capture_cell names modules run2) nb1 nb2 ()
    ∧ intermediary_results nb2 = captured names modules (run_calls run2)
    ∧ (∀ m, hooks_of nb2 m = [])
    ∧ NoDup (cb_handles nb2)
    ∧ length (cb_handles nb2) = length (filter (λ m, is_Some (names !! m)) modules).
Proof.
  intros Hh0 Hout1 Hout2.
  destruct (capture_cell_runs names modules run1 out1 nb0 Hh0 Hout1)
    as (nb1 & Hrun1 & _ & Hnone1 & _).
  destruct (capture_cell_over_hooks names modules run2 out2 nb1)
    as (nb2 & Hrun2 & Hhooks2 & Hres2 & Hnodup & Hlen & _); [| |done|].
  { intros m kh. rewrite Hnone1. by intros ?%elem_of_nil. }
  { intros m. by rewrite Hnone1. }
  exists nb1, nb2. split; [done|]. split; [done|]. split.
  - rewrite Hres2. apply captured_by_modules. intros m _.
    rewrite Hnone1. split; [by intros [?|?]|by left].
  - split; [intros m; by rewrite Hhooks2, Hnone1|done].
Qed.
End CaptureAgain.

Lemma stale_notebook_hooks (m : nat) :
  @hooks_of toy stale_notebook m
  = if decide (m = 1%nat) then [(0%nat, save_conv_output_hook)] else [].
Proof.
  unfold hooks_of. simpl. case_decide as Hm.
  - subst m. by rewrite lookup_singleton_eq.
  - by rewrite lookup_singleton_ne.
Defined.

Lemma capture_cell_keeps_earlier_hooks_witness :
  ∃ nb' : @Notebook toy,
    runs_to (@capture_cell toy toy_names toy_modules toy_run) stale_notebook nb' ()
    ∧ (∀ m, @hooks_of toy nb' m = @hooks_of toy stale_notebook m)
    ∧ @intermediary_results toy nb'
      = @captured_by toy toy_names
          (λ m, m ∈ toy_modules ∨ @hooks_of toy stale_notebook m ≠ []) _
          (@run_calls toy toy_run)
    ∧ NoDup (@cb_handles toy nb')
    ∧ length (@cb_handles toy nb')
      = length (filter (λ m, is_Some (toy_names !! m)) toy_modules).
Proof.
  apply (@capture_cell_keeps_earlier_hooks toy toy_names toy_modules toy_run [4]
           stale_notebook).
  - intros m kh. rewrite stale_notebook_hooks. case_decide.
    + intros ->%list_elem_of_singleton. simpl. lia.
    + by intros ?%elem_of_nil.
  - intros m. rewrite stale_notebook_hooks. case_decide; [subst m|done].
    intros _. by exists "relu".
  - reflexivity.
Defined.

Lemma failed_run_hooks_outlive_rerun_witness :
  ∃ (nb1 : @Notebook toy) (log1 : list (@Event toy)) (nb2 : @Notebook toy),
    @capture_cell toy toy_names toy_modules failing_run (@fresh_notebook toy ∅, [])
    = ((nb1, log1), inl (LibraryError 9))
    ∧ runs_to (@capture_cell toy toy_names toy_modules toy_run) nb1 nb2 ()
    ∧ (∀ m, @hooks_of toy nb2 m ≠ [] ↔ hooked toy_names toy_modules m)
    ∧ @intermediary_results toy nb2
      = @captured toy toy_names toy_modules (@run_calls toy toy_run)
    ∧ ∀ (run3 : @ForwardRun toy) (log3 : list (@Event toy))
        (before : list (nat * @FTensor toy)) (m : nat) (o : @FTensor toy)
        (name : string),
        hooked toy_names toy_modules m → toy_names !! m = Some name →
        @run_calls toy run3 = before ++ [(m, o)] →
        @intermediary_results toy
          (@model_call toy toy_names run3 (nb2, log3)).1.1 !! name
        = Some (@to_numpy toy o).
Proof.
  apply (@failed_run_hooks_outlive_rerun toy toy_names toy_modules failing_run toy_run
           (LibraryError 9) [4] (@fresh_notebook toy ∅) []); reflexivity.
Defined.

Lemma capture_cell_rerun_witness :
  ∃ nb1 nb2 : @Notebook toy,
    runs_to (@capture_cell toy toy_names toy_modules toy_run) (@fresh_notebook toy ∅) nb1 ()
    ∧ runs_to (@capture_cell toy toy_names toy_modules second_run) nb1 nb2 ()
    ∧ @intermediary_results toy nb2
      = @captured toy toy_names toy_modules (@run_calls toy second_run)
    ∧ (∀ m, @hooks_of toy nb2 m = [])
    ∧ NoDup (@cb_handles toy nb2)
    ∧ length (@cb_handles toy nb2)
      = length (filter (λ m, is_Some (toy_names !! m)) toy_modules).
Proof.
  apply (@capture_cell_rerun toy toy_names toy_modules toy_run second_run [4] [6]
           (@fresh_notebook toy ∅)); reflexivity.
Defined.

(** The second run of the small instance leaves the entry of module 1
    only: the entry of module 0 of the first run is gone. *)
Example second_run_captured :
  @captured toy toy_names toy_modules (@run_calls toy second_run) = {[ "relu" := [7] ]}.
Proof. vm_compute. reflexivity. Qed.

(** ** Loading the file *)

Section LoadCell.
Context `{Framework}.

Lemma print_items (items : list (string * NdArray)) (nb : Notebook) (log : list Event) :
  for_each (λ item : string * NdArray, print (EvPrintName item.1 (nd_size item.2)))
           items (nb, log)
  = ((nb, log ++ ((λ item : string * NdArray, EvPrintName item.1 (nd_size item.2))
                    <$> items)), inr ()).
Proof.
  revert log. induction items as [|item items IH]; intros log.
  - simpl. by rewrite app_nil_r.
  - unfold for_each in *. rewrite for_fold_cons, M_bind_unfold.
    unfold print at 1. simpl. rewrite IH. by rewrite <- app_assoc.
Qed.

Lemma load_cell_run (nb : Notebook) (log : list Event) :
  load_cell (nb, log)
  = match files nb !! pickle_path with
    | None =>
        ((set_from_file ∅ nb, log ++ [EvCall CallOpen (Some FileNotFoundError)]),
         inl FileNotFoundError)
    | Some content =>
        match pickle_loads content with
        | inl e =>
            ((set_from_file ∅ nb,
              log ++ [EvCall CallOpen None; EvCall CallPickleLoad (Some e)]), inl e)
        | inr d =>
            ((set_from_file d (set_from_file ∅ nb),
              log ++ [EvCall CallOpen None; EvCall CallPickleLoad None]
                  ++ ((λ item : string * NdArray, EvPrintName item.1 (nd_size item.2))
                        <$> dict_items d)), inr ())
        end
    end.
Proof.
  assert (Hfiles : files (set_from_file ∅ nb) = files nb) by done.
  unfold load_cell.
  rewrite M_bind_unfold. unfold modify at 1. cbn [fst snd].
  rewrite M_bind_unfold. unfold gets at 1. cbn [fst snd].
  rewrite Hfiles, M_bind_unfold. unfold call at 1. cbn [fst snd].
  destruct (files nb !! pickle_path) as [content|]; [|done].
  unfold mret, err_ret. cbn [raised_by]. rewrite M_bind_unfold. unfold call at 1. cbn [fst snd].
  destruct (pickle_loads content) as [e|d]; cbn [raised_by].
  - by rewrite <- app_assoc.
  - rewrite M_bind_unfold. unfold modify at 1. cbn [fst snd].
    rewrite print_items. by rewrite <- !app_assoc.
Qed.

End LoadCell.

(** On the notebook with a stale hook there is no file to load. *)
Example load_cell_missing_file :
  (@load_cell toy (stale_notebook, [])).2 = inl FileNotFoundError.
Proof. reflexivity. Qed.

(** ** The hooks after the capture cell *)

(** C10 fails as stated.  After a completed run of the cell on a fresh
    model the handle list is not drained: cb_handles still holds the
    two handles.  And hooks that were on the model before the cell are
    not removed by it: after a run whose forward pass raised, a second
    run completes, module 1 still carries the hook of the first run,
    and a later forward pass changes intermediary_results. *)
Lemma cb_handles_not_drained :
  let first := @capture_cell toy toy_names toy_modules toy_run (@fresh_notebook toy ∅, []) in
  let failed :=
    @capture_cell toy toy_names toy_modules failing_run (@fresh_notebook toy ∅, []) in
  let again := @capture_cell toy toy_names toy_modules toy_run failed.1 in
  let later := @model_call toy toy_names second_run again.1 in
  first.2 = inr ()
  ∧ cb_handles first.1.1 = [mkHandle 0 0; mkHandle 1 1]
  ∧ failed.2 = inl (LibraryError 9)
  ∧ again.2 = inr ()
  ∧ hooks_of again.1.1 1%nat = [(1%nat, save_conv_output_hook)]
  ∧ intermediary_results again.1.1 !! "relu" = Some [3]
  ∧ intermediary_results later.1.1 !! "relu" = Some [7].
Proof. repeat split; vm_compute; reflexivity. Qed.

Section HooksRemoved.
Context `{Framework}.

(** C10, amended.  When the capture cell completes on a model that
    carried no hook before it (and the forward pass returns), every
    hook the cell registered has been removed through its handle: no
    module carries a hook, and a later forward pass, of any input,
    leaves intermediary_results as it is.  The handle list is not
    drained: cb_handles keeps one spent handle per module that has a
    distiller_name.  The dictionary holds the names of the modules of
    the model that have a distiller_name and ran; when the names are
    distinct its size is the number of such modules: one entry each. *)
Theorem capture_cell_hooks_removed (names : gmap nat string) (modules : list NNModule)
    (run : ForwardRun) (out : FTensor) (nb0 : Notebook) :
  forward_hooks nb0 = ∅ → run_result run = inr out →
  ∃ nb' : Notebook,
    runs_to (capture_cell names modules run) nb0 nb' ()
    ∧ (∀ m, hooks_of nb' m = [])
    ∧ length (cb_handles nb') = length (filter (λ m, is_Some (names !! m)) modules)
    ∧ (∀ names' run' log,
         intermediary_results (model_call names' run' (nb', log)).1.1
         = intermediary_results nb')
    ∧ (∀ name, name ∈ dom (intermediary_results nb')
               ↔ ∃ m o, (m, o) ∈ run_calls run ∧ m ∈ modules ∧ names !! m = Some name)
    ∧ ((∀ m1 m2 name, names !! m1 = Some name → names !! m2 = Some name → m1 = m2) →
       size (intermediary_results nb')
       = length (remove_dups (filter (hooked names modules) (run_calls run).*1))).
Proof.
  intros Hh0 Hout.
  assert (Hnone0 : ∀ m, hooks_of nb0 m = []).
  { intros m. unfold hooks_of. by rewrite Hh0, lookup_empty. }
  destruct (capture_cell_over_hooks names modules run out nb0)
    as (nb' & Hrun & Hhooks & Hres & _ & Hlen & _); [| |done|].
  { intros m kh. rewrite Hnone0. by intros ?%elem_of_nil. }
  { intros m. by rewrite Hnone0. }
  assert (Hnone : ∀ m, hooks_of nb' m = []).
  { intros m. by rewrite Hhooks. }
  assert (Hcaptured : intermediary_results nb' = captured names modules (run_calls run)).
  { rewrite Hres. apply captured_by_modules. intros m _.
    rewrite Hnone0. split; [by intros [?|?]|by left]. }
  exists nb'. split; [done|]. split; [done|]. split; [done|]. split; [|split].
  - intros names' run' log. by rewrite model_call_without_hooks.
  - intros name. rewrite Hcaptured. apply captured_dom.
  - intros Hinj. rewrite Hcaptured. by apply captured_size.
Qed.
End HooksRemoved.

Lemma capture_cell_hooks_removed_witness :
  ∃ nb' : @Notebook toy,
    runs_to (@capture_cell toy toy_names toy_modules toy_run) (@fresh_notebook toy ∅) nb' ()
    ∧ (∀ m, @hooks_of toy nb' m = [])
    ∧ length (@cb_handles toy nb')
      = length (filter (λ m, is_Some (toy_names !! m)) toy_modules)
    ∧ (∀ names' run' log,
         @intermediary_results toy (@model_call toy names' run' (nb', log)).1.1
         = @intermediary_results toy nb')
    ∧ (∀ name, name ∈ dom (@intermediary_results toy nb')
               ↔ ∃ m o, (m, o) ∈ @run_calls toy toy_run ∧ m ∈ toy_modules
                        ∧ toy_names !! m = Some name)
    ∧ ((∀ m1 m2 name,
          toy_names !! m1 = Some name → toy_names !! m2 = Some name → m1 = m2) →
       size (@intermediary_results toy nb')
       = length (remove_dups (filter (hooked toy_names toy_modules)
                                     (@run_calls toy toy_run).*1))).
Proof.
  apply (@capture_cell_hooks_removed toy toy_names toy_modules toy_run [4]
           (@fresh_notebook toy ∅)); reflexivity.
Defined.
